(** * GitHub-Scraper: a shallow embedding of [main.py] and its properties

    The development follows the source file top-down:

    - Python text, the exception classes the program meets and their
      class hierarchy;
    - the library calls the program makes ([base64.b64decode],
      [bytes.decode('utf-8')], item access on decoded JSON, [re.compile],
      [Pattern.findall], [requests.get]);
    - the class [GitHubEnvScraper], method by method, in a state and
      exception monad;
    - the properties of the scan pipeline.

    Python [str] values are represented by their UTF-8 encoding, as
    [string]: two [str] are equal iff their encodings are, and a [str] is
    empty iff its encoding is. *)

From Stdlib Require Import ZArith NArith QArith Ascii String List Bool Lia Lqa.
From stdpp Require Import base option list gmap strings pretty.

#[local] Set Warnings "-register-all".

Local Open Scope string_scope.
Local Open Scope list_scope.

(** ** Text *)

Definition code (c : ascii) : N := N_of_ascii c.

Definition chars (s : string) : list ascii := list_ascii_of_string s.
Definition text (l : list ascii) : string := string_of_list_ascii l.

(** [str * n] for a one-character [str]. *)
Definition repeat_char (c : ascii) (n : nat) : string := text (repeat c n).

(** Truth value of a [str]: non-empty. *)
Definition truthy (s : string) : bool :=
  match s with EmptyString => false | String _ _ => true end.

Definition nl : string := String (ascii_of_N 10) EmptyString.
Definition squote : string := String (ascii_of_N 39) EmptyString.
Definition dquote : string := String (ascii_of_N 34) EmptyString.

(** ** Exceptions

    The classes the program can meet, with Python's inheritance. Only the
    part of the hierarchy that decides which [except] clause catches what
    is kept. *)

Inductive exn_class :=
  | BaseException_ | Exception_
  | OSError_ | ValueError_ | LookupError_ | KeyError_ | TypeError_
  | AttributeError_ | UnicodeError_ | UnicodeDecodeError_
  | binascii_Error | re_error | OverflowError_
  | RequestException | HTTPError | ConnectionError_ | Timeout
  | TooManyRedirects | InvalidURL | MissingSchema | InvalidJSONError
  | JSONDecodeError
  | Unmodelled.

Definition exn_class_eqb (a b : exn_class) : bool :=
  match a, b with
  | BaseException_, BaseException_ | Exception_, Exception_
  | OSError_, OSError_ | ValueError_, ValueError_
  | LookupError_, LookupError_ | KeyError_, KeyError_
  | TypeError_, TypeError_ | AttributeError_, AttributeError_
  | UnicodeError_, UnicodeError_ | UnicodeDecodeError_, UnicodeDecodeError_
  | binascii_Error, binascii_Error | re_error, re_error
  | OverflowError_, OverflowError_
  | RequestException, RequestException | HTTPError, HTTPError
  | ConnectionError_, ConnectionError_ | Timeout, Timeout
  | TooManyRedirects, TooManyRedirects | InvalidURL, InvalidURL
  | MissingSchema, MissingSchema | InvalidJSONError, InvalidJSONError
  | JSONDecodeError, JSONDecodeError | Unmodelled, Unmodelled => true
  | _, _ => false
  end.

(** Direct base classes. [requests.exceptions.RequestException] derives
    from [IOError], which is [OSError]; [binascii.Error] and
    [UnicodeDecodeError] are [ValueError]s; [re.error] derives from
    [Exception] directly. [Unmodelled] is not a Python class: it marks
    an execution that leaves what this development models (see
    [expect_str] and [Re.compile] below); it has no base, so no [except]
    clause of the program catches it. *)
Definition bases (c : exn_class) : list exn_class :=
  match c with
  | BaseException_ => []
  | Exception_ => [BaseException_]
  | OSError_ | ValueError_ | LookupError_ | TypeError_ | AttributeError_
  | re_error => [Exception_]
  | OverflowError_ => [Exception_]
  | KeyError_ => [LookupError_]
  | UnicodeError_ => [ValueError_]
  | UnicodeDecodeError_ => [UnicodeError_]
  | binascii_Error => [ValueError_]
  | RequestException => [OSError_]
  | HTTPError | ConnectionError_ | Timeout | TooManyRedirects
  | InvalidURL | InvalidJSONError => [RequestException]
  | MissingSchema => [RequestException; ValueError_]
  | JSONDecodeError => [InvalidJSONError; ValueError_]
  | Unmodelled => []
  end.

(** [issubclass c d], by walking the bases; the hierarchy is 6 deep. *)
Fixpoint issubclass_fuel (n : nat) (c d : exn_class) : bool :=
  exn_class_eqb c d ||
  match n with
  | O => false
  | S n' => existsb (fun b => issubclass_fuel n' b d) (bases c)
  end.

Definition issubclass : exn_class -> exn_class -> bool := issubclass_fuel 6.

Record exn := mk_exn { exn_cls : exn_class; exn_msg : string }.

(** [str(e)] as the f-strings of the program print it. *)
Definition exn_str (e : exn) : string := exn_msg e.

(** Outcome of a call: a value or a raised exception. *)
Inductive result (A : Type) :=
  | Ret (a : A)
  | Raise (e : exn).
Arguments Ret {A} a.
Arguments Raise {A} e.

Definition rbind {A B} (r : result A) (k : A -> result B) : result B :=
  match r with Ret a => k a | Raise e => Raise e end.

(** ** [base64.b64decode]

    [base64.b64decode(s)] with a [str] argument first encodes it as ASCII
    ([ValueError] otherwise) and then runs [binascii.a2b_base64] in its
    default, non-strict mode, whose loop is transcribed here from CPython's
    [binascii.c]: characters outside the alphabet are skipped, a complete
    pad sequence ends the input, an incomplete quad is an error. *)
Module Base64.
Local Open Scope N_scope.

Definition table_a2b_base64 (c : ascii) : option N :=
  let n := code c in
  if (65 <=? n) && (n <=? 90) then Some (n - 65)
  else if (97 <=? n) && (n <=? 122) then Some (n - 71)
  else if (48 <=? n) && (n <=? 57) then Some (n + 4)
  else if n =? 43 then Some 62
  else if n =? 47 then Some 63
  else None.

Definition BASE64_PAD : ascii := "=".

Definition byte (n : N) : ascii := ascii_of_N (N.land n 255).

(** [out] is the decoded data so far, most recent byte first. *)
Fixpoint a2b_loop (data : list ascii) (quad_pos : nat) (leftchar : N)
    (pads : nat) (out : list ascii) : result (list ascii) :=
  match data with
  | [] =>
      match quad_pos with
      | O => Ret (rev out)
      | 1%nat =>
          Raise (mk_exn binascii_Error
            ("Invalid base64-encoded string: number of data characters ("
             ++ pretty (length out / 3 * 4 + 1)%nat
             ++ ") cannot be 1 more than a multiple of 4"))
      | _ => Raise (mk_exn binascii_Error "Incorrect padding")
      end
  | this_ch :: rest =>
      if Ascii.eqb this_ch BASE64_PAD then
        if (2 <=? quad_pos)%nat then
          let pads := S pads in
          if (4 <=? quad_pos + pads)%nat then Ret (rev out)
          else a2b_loop rest quad_pos leftchar pads out
        else a2b_loop rest quad_pos leftchar pads out
      else
        match table_a2b_base64 this_ch with
        | None => a2b_loop rest quad_pos leftchar pads out
        | Some v =>
            match quad_pos with
            | O => a2b_loop rest 1%nat v 0%nat out
            | 1%nat =>
                a2b_loop rest 2%nat (N.land v 15) 0%nat
                  (byte (N.lor (N.shiftl leftchar 2) (N.shiftr v 4)) :: out)
            | 2%nat =>
                a2b_loop rest 3%nat (N.land v 3) 0%nat
                  (byte (N.lor (N.shiftl leftchar 4) (N.shiftr v 2)) :: out)
            | _ =>
                a2b_loop rest 0%nat 0 0%nat
                  (byte (N.lor (N.shiftl leftchar 6) v) :: out)
            end
        end
  end.

Definition a2b_base64 (data : list ascii) : result (list ascii) :=
  a2b_loop data 0%nat 0 0%nat [].

Definition is_ascii (s : string) : bool :=
  forallb (fun c => code c <? 128) (chars s).

Definition b64decode (s : string) : result (list ascii) :=
  if is_ascii s then a2b_base64 (chars s)
  else Raise (mk_exn ValueError_
                "string argument should contain only ASCII characters").

End Base64.

(** ** [bytes.decode('utf-8')]

    The strict decoder: the well-formed byte sequences of the Unicode
    standard (no overlong form, no surrogate, nothing above U+10FFFF). As
    a [str] is represented by its encoding, a successful decode returns
    the bytes it was given. *)
Module Utf8.
Local Open Scope N_scope.

Definition between (lo hi : N) (c : ascii) : bool :=
  (lo <=? code c) && (code c <=? hi).

Definition cont : ascii -> bool := between 128 191.

(** Number of bytes of the well-formed sequence that starts [l], if any. *)
Definition well_formed_prefix (l : list ascii) : option nat :=
  match l with
  | [] => None
  | b1 :: t =>
      if between 0 127 b1 then Some 1%nat
      else if between 194 223 b1 then
        match t with
        | b2 :: _ => if cont b2 then Some 2%nat else None
        | _ => None
        end
      else if between 224 239 b1 then
        match t with
        | b2 :: b3 :: _ =>
            if (if code b1 =? 224 then between 160 191 b2
                else if code b1 =? 237 then between 128 159 b2
                else cont b2) && cont b3
            then Some 3%nat else None
        | _ => None
        end
      else if between 240 244 b1 then
        match t with
        | b2 :: b3 :: b4 :: _ =>
            if (if code b1 =? 240 then between 144 191 b2
                else if code b1 =? 244 then between 128 143 b2
                else cont b2) && cont b3 && cont b4
            then Some 4%nat else None
        | _ => None
        end
      else None
  end.

Fixpoint valid_fuel (n : nat) (l : list ascii) : bool :=
  match l with
  | [] => true
  | _ :: _ =>
      match n with
      | O => false
      | S n' =>
          match well_formed_prefix l with
          | Some k => valid_fuel n' (drop k l)
          | None => false
          end
      end
  end.

(** Every step consumes at least one byte, so [length l] steps suffice. *)
Definition valid (l : list ascii) : bool := valid_fuel (length l) l.

Definition decode (l : list ascii) : result string :=
  if valid l then Ret (text l)
  else Raise (mk_exn UnicodeDecodeError_
                "'utf-8' codec can't decode bytes: invalid data").

(** [len(s)]: the number of code points, that is of bytes that are not
    continuation bytes. *)
Definition len (s : string) : nat :=
  length (filter (fun c => negb (cont c)) (chars s)).

End Utf8.


(** ** Decoded JSON and the item access the program performs on it

    [response.json()] yields nested Python values. Numbers are kept as
    integers: the program never computes with a number of a response. *)
Inductive json :=
  | JNull
  | JBool (b : bool)
  | JNum (n : Z)
  | JStr (s : string)
  | JArr (l : list json)
  | JObj (kv : list (string * json)).

Module Json.

Definition type_name (v : json) : string :=
  match v with
  | JNull => "NoneType" | JBool _ => "bool" | JNum _ => "int"
  | JStr _ => "str" | JArr _ => "list" | JObj _ => "dict"
  end.

Fixpoint assoc (k : string) (kv : list (string * json)) : option json :=
  match kv with
  | [] => None
  | (k', v) :: t => if String.eqb k k' then Some v else assoc k t
  end.

(** [v[k]] for a [str] key [k]. *)
Definition getitem (v : json) (k : string) : result json :=
  match v with
  | JObj kv =>
      match assoc k kv with
      | Some x => Ret x
      | None => Raise (mk_exn KeyError_ (squote ++ k ++ squote))
      end
  | JArr _ =>
      Raise (mk_exn TypeError_
               "list indices must be integers or slices, not str")
  | JStr _ =>
      Raise (mk_exn TypeError_ "string indices must be integers, not 'str'")
  | _ =>
      Raise (mk_exn TypeError_
               (squote ++ type_name v ++ "' object is not subscriptable"))
  end.

(** [v.get(k, default)]: only a [dict] has the method. *)
Definition get (v : json) (k : string) (default : json) : result json :=
  match v with
  | JObj kv => Ret (match assoc k kv with Some x => x | None => default end)
  | _ =>
      Raise (mk_exn AttributeError_
               (squote ++ type_name v ++ "' object has no attribute 'get'"))
  end.

(** Number of elements kept by the slice [[:n]] of a sequence of
    length [len]: a negative bound counts from the end. *)
Definition slice_stop (len : nat) (n : Z) : nat :=
  if (0 <=? n)%Z then Nat.min (Z.to_nat n) len
  else Z.to_nat (Z.of_nat len + n).

(** The code points of a [str], each as a one-character [str]. *)
Fixpoint points_aux (l : list ascii) : list ascii * list (list ascii) :=
  match l with
  | [] => ([], [])
  | c :: t =>
      let '(pending, groups) := points_aux t in
      if Utf8.cont c then (c :: pending, groups)
      else ([], (c :: pending) :: groups)
  end.

Definition points (s : string) : list string :=
  map text (snd (points_aux (chars s))).

(** [v[:n]]; a [dict] refuses the slice with [TypeError] (with
    [KeyError] from Python 3.12 on: neither is caught by the program). *)
Definition slice_to (v : json) (n : Z) : result json :=
  match v with
  | JArr l => Ret (JArr (take (slice_stop (length l) n) l))
  | JStr s =>
      let ps := points s in
      Ret (JStr (String.concat "" (take (slice_stop (length ps) n) ps)))
  | JObj _ => Raise (mk_exn TypeError_ "unhashable type: 'slice'")
  | _ =>
      Raise (mk_exn TypeError_
               (squote ++ type_name v ++ "' object is not subscriptable"))
  end.

(** The elements a [for] loop over [v] visits. *)
Definition iter (v : json) : result (list json) :=
  match v with
  | JArr l => Ret l
  | JStr s => Ret (map JStr (points s))
  | JObj kv => Ret (map (fun p => JStr (fst p)) kv)
  | _ =>
      Raise (mk_exn TypeError_
               (squote ++ type_name v ++ "' object is not iterable"))
  end.

(** The program formats repository names, paths and URLs with f-strings
    and uses them as set members and request targets. The GitHub API
    sends them as JSON strings; a response that carries another kind of
    value there is outside the model. *)
Definition expect_str (v : json) : result string :=
  match v with
  | JStr s => Ret s
  | _ => Raise (mk_exn Unmodelled
                  ("a " ++ type_name v ++ " where the API sends a string"))
  end.

End Json.

(** ** The [re] module

    [re.compile] and [Pattern.findall] are modelled for a fragment of the
    pattern syntax: literals, [.], [^], [$], character sets with ranges
    and the classes [\d \s \w] and their complements, the anchors
    [\b \B \A \Z], capturing and [(?:...)] groups, alternation and the
    greedy and lazy quantifiers. A pattern that uses anything else
    (look-around, back-references, named groups, inline flags, possessive
    quantifiers, numeric escapes) is answered with [Unmodelled]: about
    such a pattern the model says nothing, and no theorem speaks of it.
    Characters are the bytes of the UTF-8 encoding and the classes and
    the case folding are those of ASCII, so the model is the [re] module
    on ASCII patterns and ASCII subjects only. What the theorems state
    for every pattern and every content, they state for every runtime
    that keeps the documented contract of [findall]; the model is used
    for scenarios in ASCII. *)
Module Re.

Record flags := { MULTILINE : bool; IGNORECASE : bool }.

Inductive category := Digit | Space | Word.

Inductive set_item :=
  | SChar (c : ascii)
  | SRange (lo hi : ascii)
  | SCat (neg : bool) (k : category).

Inductive regex :=
  | Empty
  | Lit (c : ascii)
  | Any
  | In_ (neg : bool) (items : list set_item)
  | Bol | Eol | BeginString | EndString
  | Boundary (neg : bool)
  | Seq (r1 r2 : regex)
  | Alt (r1 r2 : regex)
  | Group (n : nat) (r : regex)
  | Repeat (r : regex) (lo : nat) (hi : option nat) (greedy : bool).

(** A compiled pattern: the expression and its number of groups. *)
Record pattern := { expr : regex; groups : nat; pflags : flags }.

(** *** Characters *)

Definition between (lo hi : N) (c : ascii) : bool :=
  ((lo <=? code c) && (code c <=? hi))%N.

Definition lower (c : ascii) : ascii :=
  if between 65 90 c then ascii_of_N (code c + 32) else c.
Definition upper (c : ascii) : ascii :=
  if between 97 122 c then ascii_of_N (code c - 32) else c.

Definition is_digit (c : ascii) : bool := between 48 57 c.
(** [str.isspace] on ASCII: tab to carriage return, the four
    separators 28 to 31, and the space. *)
Definition is_space (c : ascii) : bool :=
  between 9 13 c || between 28 31 c || (code c =? 32)%N.
Definition is_word (c : ascii) : bool :=
  between 48 57 c || between 65 90 c || between 97 122 c
  || (code c =? 95)%N.

Definition in_category (k : category) (c : ascii) : bool :=
  match k with
  | Digit => is_digit c | Space => is_space c | Word => is_word c
  end.

Definition item_matches (fl : flags) (c : ascii) (it : set_item) : bool :=
  if IGNORECASE fl then
    let lc := lower c in
    match it with
    | SChar x => Ascii.eqb (lower x) lc
    | SRange lo hi =>
        between (code lo) (code hi) lc
        || between (code lo) (code hi) (upper lc)
    | SCat neg k => xorb neg (in_category k lc)
    end
  else
    match it with
    | SChar x => Ascii.eqb x c
    | SRange lo hi => between (code lo) (code hi) c
    | SCat neg k => xorb neg (in_category k c)
    end.

Definition lit_matches (fl : flags) (x c : ascii) : bool :=
  if IGNORECASE fl then Ascii.eqb (lower x) (lower c) else Ascii.eqb x c.

Definition newline : ascii := ascii_of_N 10.

(** *** Matching

    A backtracking matcher in continuation-passing style: [m r i caps k]
    tries the ways [r] can match at position [i], in the order of
    preference of [re], and hands each end position and capture table
    to [k] until one is accepted. *)

Definition captures := list (nat * (nat * nat)).

Fixpoint capture (n : nat) (caps : captures) : option (nat * nat) :=
  match caps with
  | [] => None
  | (n', span) :: t => if Nat.eqb n n' then Some span else capture n t
  end.

Section Matcher.
Variable fl : flags.
Variable s : list ascii.
Variable A : Type.

Definition at_boundary (i : nat) : bool :=
  let before :=
    match i with
    | O => false
    | S j => match nth_error s j with
             | Some c => is_word c | None => false end
    end in
  let after :=
    match nth_error s i with Some c => is_word c | None => false end in
  xorb before after.

Definition at_bol (i : nat) : bool :=
  match i with
  | O => true
  | S j => MULTILINE fl &&
           match nth_error s j with
           | Some c => Ascii.eqb c newline | None => false end
  end.

Definition at_eol (i : nat) : bool :=
  match nth_error s i with
  | None => Nat.eqb i (length s)
  | Some c =>
      Ascii.eqb c newline
      && (MULTILINE fl || Nat.eqb (S i) (length s))
  end.

Definition one (p : ascii -> bool) (i : nat) (caps : captures)
    (k : nat -> captures -> option A) : option A :=
  match nth_error s i with
  | Some c => if p c then k (S i) caps else None
  | None => None
  end.

Definition guard (b : bool) (i : nat) (caps : captures)
    (k : nat -> captures -> option A) : option A :=
  if b then k i caps else None.

Definition orelse (x : option A) (y : unit -> option A) : option A :=
  match x with Some v => Some v | None => y tt end.

Definition under (hi : option nat) (count : nat) : bool :=
  match hi with None => true | Some h => Nat.ltb count h end.

(** The loop of a quantifier. Below [lo] iterations the body must
    match again. From [lo] on, one more iteration is tried first
    (greedy) or last (lazy); an iteration that consumed nothing ends
    the loop. Every iteration past [lo] consumes a character, so
    [lo + length s + 1] rounds are never exhausted. *)
Fixpoint m (r : regex) (i : nat) (caps : captures)
    (k : nat -> captures -> option A) {struct r} : option A :=
  match r with
  | Empty => k i caps
  | Lit x => one (lit_matches fl x) i caps k
  | Any => one (fun c => negb (Ascii.eqb c newline)) i caps k
  | In_ neg items =>
      one (fun c => xorb neg (existsb (item_matches fl c) items)) i caps k
  | Bol => guard (at_bol i) i caps k
  | Eol => guard (at_eol i) i caps k
  | BeginString => guard (Nat.eqb i 0) i caps k
  | EndString => guard (Nat.eqb i (length s)) i caps k
  | Boundary neg => guard (xorb neg (at_boundary i)) i caps k
  | Seq r1 r2 => m r1 i caps (fun j c => m r2 j c k)
  | Alt r1 r2 => orelse (m r1 i caps k) (fun _ => m r2 i caps k)
  | Group n r1 => m r1 i caps (fun j c => k j ((n, (i, j)) :: c))
  | Repeat r1 lo hi greedy =>
      (fix loop (rounds count i : nat) (caps : captures) : option A :=
         match rounds with
         | O => None
         | S rounds' =>
             if Nat.ltb count lo then
               m r1 i caps (fun j c => loop rounds' (S count) j c)
             else
               let again (_ : unit) :=
                 if under hi count then
                   m r1 i caps (fun j c =>
                     if Nat.eqb j i then k j c
                     else loop rounds' (S count) j c)
                 else None in
               if greedy then orelse (again tt) (fun _ => k i caps)
               else orelse (k i caps) again
         end) (lo + length s + 1)%nat 0%nat i caps
  end.
End Matcher.

(** A match: its span and its captures. *)
Record match_obj := { m_start : nat; m_end : nat; m_caps : captures }.

(** [Pattern.search] from [pos]: the first position, from [pos] on,
    where the pattern matches. With [must_advance] the match at [pos]
    itself may not be empty. *)
Fixpoint search_from (fl : flags) (s : list ascii) (r : regex)
    (n pos : nat) (must_advance : bool) : option match_obj :=
  let here :=
    m fl s match_obj r pos []
      (fun j c => if must_advance && Nat.eqb j pos then None
                  else Some {| m_start := pos; m_end := j; m_caps := c |}) in
  match here with
  | Some x => Some x
  | None =>
      match n with
      | O => None
      | S n' => search_from fl s r n' (S pos) false
      end
  end.

Definition search (fl : flags) (s : list ascii) (r : regex)
    (pos : nat) (must_advance : bool) : option match_obj :=
  search_from fl s r (length s - pos) pos must_advance.

(** The scanner of [findall] and [finditer]: each search starts where
    the previous match ended, and after an empty match the next one
    must advance. Two searches move the start by at least one
    character, so [2 * length s + 2] searches are never exhausted. *)
Fixpoint scan (fl : flags) (s : list ascii) (r : regex)
    (n pos : nat) (must_advance : bool) : list match_obj :=
  match n with
  | O => []
  | S n' =>
      if Nat.leb pos (length s) then
        match search fl s r pos must_advance with
        | None => []
        | Some x =>
            x :: scan fl s r n' (m_end x) (Nat.eqb (m_end x) (m_start x))
        end
      else []
  end.

Definition finditer (p : pattern) (s : string) : list match_obj :=
  scan (pflags p) (chars s) (expr p)
    (2 * length (chars s) + 2) 0 false.

Definition slice (s : string) (i j : nat) : string :=
  text (take (j - i) (drop i (chars s))).

(** [Match.group(0)] *)
Definition whole (s : string) (x : match_obj) : string :=
  slice s (m_start x) (m_end x).

(** The text of group [n], or the empty string when the group took no
    part in the match, which is what [findall] reports. *)
Definition group_text (s : string) (x : match_obj) (n : nat) : string :=
  match capture n (m_caps x) with
  | Some (i, j) => slice s i j
  | None => ""
  end.

(** *** Parsing

    The parser follows [sre_parse]: a tokenizer that pairs a backslash
    with the character after it, and a recursive descent over the
    tokens. Errors carry the message and position of [re.error]. *)

Inductive tok :=
  | T (esc : bool) (c : ascii) (pos : nat)
  | TBad (pos : nat).

Definition backslash : ascii := ascii_of_N 92.

Fixpoint tokenize (l : list ascii) (pos : nat) : list tok :=
  match l with
  | [] => []
  | c :: t =>
      if Ascii.eqb c backslash then
        match t with
        | [] => [TBad pos]
        | d :: t' => T true d pos :: tokenize t' (S (S pos))
        end
      else T false c pos :: tokenize t (S pos)
  end.

Inductive failure :=
  | Error (msg : string) (pos : nat)
  | Overflow
  | Beyond (what : string).

Definition parsed (X : Type) : Type := failure + X.

Definition pbind {X Y} (x : parsed X) (k : X -> parsed Y) : parsed Y :=
  match x with inl e => inl e | inr v => k v end.

Notation "x <~ c1 ; c2" := (pbind c1 (fun x => c2))
  (at level 20, c1 at level 100, c2 at level 200, only parsing).
Notation "' x <~ c1 ; c2" := (pbind c1 (fun x => c2))
  (at level 20, x pattern, c1 at level 100, c2 at level 200, only parsing).

(** Consuming a token makes the tokenizer read the next one: a lone
    backslash at the end of the pattern is reported then. *)
Definition eat (rest : list tok) : parsed (list tok) :=
  match rest with
  | [TBad pos] => inl (Error "bad escape (end of pattern)" pos)
  | _ => inr rest
  end.

Definition is_ascii_letter (c : ascii) : bool :=
  between 65 90 c || between 97 122 c.

Definition escape_char (c : ascii) : option ascii :=
  if Ascii.eqb c "a" then Some (ascii_of_N 7)
  else if Ascii.eqb c "f" then Some (ascii_of_N 12)
  else if Ascii.eqb c "n" then Some (ascii_of_N 10)
  else if Ascii.eqb c "r" then Some (ascii_of_N 13)
  else if Ascii.eqb c "t" then Some (ascii_of_N 9)
  else if Ascii.eqb c "v" then Some (ascii_of_N 11)
  else if Ascii.eqb c backslash then Some backslash
  else None.

Definition escape_category (c : ascii) : option set_item :=
  if Ascii.eqb c "d" then Some (SCat false Digit)
  else if Ascii.eqb c "D" then Some (SCat true Digit)
  else if Ascii.eqb c "s" then Some (SCat false Space)
  else if Ascii.eqb c "S" then Some (SCat true Space)
  else if Ascii.eqb c "w" then Some (SCat false Word)
  else if Ascii.eqb c "W" then Some (SCat true Word)
  else None.

Definition numeric_escape (c : ascii) : bool :=
  is_digit c || Ascii.eqb c "x" || Ascii.eqb c "u" || Ascii.eqb c "U"
  || Ascii.eqb c "N".

Definition bad_escape (c : ascii) (pos : nat) : failure :=
  Error ("bad escape " ++ String backslash (String c "")) pos.

(** [_class_escape]: an escape inside a character set. *)
Definition class_escape (c : ascii) (pos : nat) : parsed set_item :=
  match escape_category c with
  | Some k => inr k
  | None =>
      if Ascii.eqb c "b" then inr (SChar (ascii_of_N 8))
      else match escape_char c with
      | Some x => inr (SChar x)
      | None =>
          if numeric_escape c then inl (Beyond "numeric escape")
          else if is_ascii_letter c then inl (bad_escape c pos)
          else inr (SChar c)
      end
  end.

Inductive kind := KPlain | KAt | KRepeat.

(** [_escape]: an escape outside a character set. *)
Definition escape (c : ascii) (pos : nat) : parsed (regex * kind) :=
  match escape_category c with
  | Some k => inr (In_ false [k], KPlain)
  | None =>
      if Ascii.eqb c "b" then inr (Boundary false, KAt)
      else if Ascii.eqb c "B" then inr (Boundary true, KAt)
      else if Ascii.eqb c "A" then inr (BeginString, KAt)
      else if Ascii.eqb c "Z" then inr (EndString, KAt)
      else match escape_char c with
      | Some x => inr (Lit x, KPlain)
      | None =>
          if numeric_escape c then inl (Beyond "numeric escape or reference")
          else if is_ascii_letter c then inl (bad_escape c pos)
          else inr (Lit c, KPlain)
      end
  end.

Definition tok_text (esc : bool) (c : ascii) : string :=
  if esc then String backslash (String c "") else String c "".

Definition set_code (esc : bool) (c : ascii) (pos : nat) : parsed set_item :=
  if esc then class_escape c pos else inr (SChar c).

Definition bad_range (e1 : bool) (c1 : ascii) (e2 : bool) (c2 : ascii)
    (pos : nat) : failure :=
  Error ("bad character range " ++ tok_text e1 c1 ++ "-" ++ tok_text e2 c2)
        pos.

(** The items of a character set, after [[] and an optional [^];
    [here] is the position of the opening bracket. *)
Fixpoint parse_set (n : nat) (ts : list tok) (here : nat)
    (acc : list set_item) : parsed (list set_item * list tok) :=
  match n with
  | O => inl (Beyond "set")
  | S n' =>
      match ts with
      | [] | TBad _ :: _ => inl (Error "unterminated character set" here)
      | T e1 c1 p1 :: ts1 =>
          ts1 <~ eat ts1;
          if negb e1 && Ascii.eqb c1 "]"
             && negb (match acc with [] => true | _ => false end)
          then inr (rev acc, ts1)
          else
            code1 <~ set_code e1 c1 p1;
            match ts1 with
            | T false "-" _ :: ts2 =>
                ts2 <~ eat ts2;
                match ts2 with
                | [] | TBad _ :: _ =>
                    inl (Error "unterminated character set" here)
                | T e2 c2 p2 :: ts3 =>
                    ts3 <~ eat ts3;
                    if negb e2 && Ascii.eqb c2 "]" then
                      inr (rev (SChar "-" :: code1 :: acc), ts3)
                    else
                      code2 <~ set_code e2 c2 p2;
                      match code1, code2 with
                      | SChar lo, SChar hi =>
                          if (code hi <? code lo)%N
                          then inl (bad_range e1 c1 e2 c2 p1)
                          else parse_set n' ts3 here (SRange lo hi :: acc)
                      | _, _ => inl (bad_range e1 c1 e2 c2 p1)
                      end
                end
            | _ => parse_set n' ts1 here (code1 :: acc)
            end
      end
  end.

Definition MAXREPEAT : N := 4294967295.

Fixpoint digits (ts : list tok) (acc : option N) : option N * list tok :=
  match ts with
  | T false c _ :: t =>
      if is_digit c
      then digits t (Some (10 * default 0%N acc + (code c - 48))%N)
      else (acc, ts)
  | _ => (acc, ts)
  end.

(** The text after [{], read as [lo], [lo,], [,hi] or [lo,hi] and a
    closing brace; [None] when it is not of that form, in which case the
    brace is a literal. *)
Definition braces (ts : list tok)
    : option (option N * option N * list tok) :=
  match ts with
  | T false "}" _ :: _ => None
  | _ =>
      let '(lo, ts1) := digits ts None in
      let '(hi, ts2) :=
        match ts1 with
        | T false "," _ :: t => digits t None
        | _ => (lo, ts1)
        end in
      match ts2 with
      | T false "}" _ :: t => Some (lo, hi, t)
      | _ => None
      end
  end.

Definition bounds (lo hi : option N) (here : nat)
    : parsed (nat * option nat) :=
  if (MAXREPEAT <=? default 0 lo)%N then inl Overflow
  else match hi with
  | None => inr (N.to_nat (default 0%N lo), None)
  | Some h =>
      if (MAXREPEAT <=? h)%N then inl Overflow
      else if (h <? default 0 lo)%N
      then inl (Error "min repeat greater than max repeat" here)
      else inr (N.to_nat (default 0%N lo), Some (N.to_nat h))
  end.

Definition mkseq (items : list (regex * kind)) : regex :=
  match items with
  | [] => Empty
  | (r, _) :: t => fold_left (fun acc it => Seq (fst it) acc) t r
  end.

Definition mkalt (alts : list regex) (last : regex) : regex :=
  fold_left (fun acc r => Alt r acc) alts last.

(** Apply a quantifier read at position [at_] to the last item. *)
Definition quantify (items : list (regex * kind)) (lo : nat)
    (hi : option nat) (at_ : nat) (ts : list tok)
    : parsed (list (regex * kind) * list tok) :=
  match items with
  | [] | (_, KAt) :: _ => inl (Error "nothing to repeat" at_)
  | (_, KRepeat) :: _ => inl (Error "multiple repeat" at_)
  | (r, KPlain) :: rest =>
      match ts with
      | T false "?" _ :: ts' =>
          ts' <~ eat ts';
          inr ((Repeat r lo hi false, KRepeat) :: rest, ts')
      | T false "+" _ :: _ => inl (Beyond "possessive quantifier")
      | _ => inr ((Repeat r lo hi true, KRepeat) :: rest, ts)
      end
  end.

(** The characters that open a group extension after [(?]: the flags
    and the extensions of [sre_parse]. Any other character there is an
    error of the pattern. A character outside ASCII is left to the part
    of the syntax that is not modelled. *)
Definition extension (esc : bool) (c : ascii) : bool :=
  negb esc
  && (existsb (Ascii.eqb c) (chars "!#(-:<=>LPaimstux")
      || (128 <=? code c)%N).

(** [_parse_sub] and [_parse]: alternatives of sequences of items, up to
    a closing parenthesis or the end; [alts] and [items] hold what was
    read so far, most recent first, and [ng] counts the groups opened. *)
Fixpoint parse_sub (n : nat) (ts : list tok) (ng : nat)
    (alts : list regex) (items : list (regex * kind))
    : parsed (regex * list tok * nat) :=
  match n with
  | O => inl (Beyond "pattern")
  | S n' =>
      match ts with
      | [] | TBad _ :: _ | T false ")" _ :: _ =>
          inr (mkalt alts (mkseq items), ts, ng)
      | T true c pos :: ts1 =>
          ts1 <~ eat ts1;
          it <~ escape c pos;
          parse_sub n' ts1 ng alts (it :: items)
      | T false c pos :: ts1 =>
          ts1 <~ eat ts1;
          if Ascii.eqb c "|" then
            parse_sub n' ts1 ng (mkseq items :: alts) []
          else if Ascii.eqb c "(" then
            match ts1 with
            | T false "?" _ :: ts2 =>
                ts2 <~ eat ts2;
                match ts2 with
                | T false ":" _ :: ts3 =>
                    ts3 <~ eat ts3;
                    '(r, ts4, ng') <~ parse_sub n' ts3 ng [] [];
                    match ts4 with
                    | T false ")" _ :: ts5 =>
                        ts5 <~ eat ts5;
                        parse_sub n' ts5 ng' alts ((r, KPlain) :: items)
                    | _ => inl (Error "missing ), unterminated subpattern"
                                      pos)
                    end
                | [] => inl (Error "unexpected end of pattern" (S (S pos)))
                | T e x _ :: _ =>
                    if extension e x then inl (Beyond "group extension")
                    else inl (Error ("unknown extension ?" ++ tok_text e x)
                                    (S pos))
                | TBad _ :: _ => inl (Beyond "group extension")
                end
            | _ =>
                '(r, ts4, ng') <~ parse_sub n' ts1 (S ng) [] [];
                match ts4 with
                | T false ")" _ :: ts5 =>
                    ts5 <~ eat ts5;
                    parse_sub n' ts5 ng' alts
                      ((Group (S ng) r, KPlain) :: items)
                | _ => inl (Error "missing ), unterminated subpattern" pos)
                end
            end
          else if Ascii.eqb c "[" then
            let '(neg, ts2) :=
              match ts1 with
              | T false "^" _ :: t => (true, t)
              | _ => (false, ts1)
              end in
            ts2 <~ (if neg then eat ts2 else inr ts2);
            '(set, ts3) <~ parse_set (S (length ts2)) ts2 pos [];
            parse_sub n' ts3 ng alts ((In_ neg set, KPlain) :: items)
          else if Ascii.eqb c "*" then
            '(items', ts2) <~ quantify items 0 None pos ts1;
            parse_sub n' ts2 ng alts items'
          else if Ascii.eqb c "+" then
            '(items', ts2) <~ quantify items 1 None pos ts1;
            parse_sub n' ts2 ng alts items'
          else if Ascii.eqb c "?" then
            '(items', ts2) <~ quantify items 0 (Some 1%nat) pos ts1;
            parse_sub n' ts2 ng alts items'
          else if Ascii.eqb c "{" then
            match braces ts1 with
            | None => parse_sub n' ts1 ng alts ((Lit c, KPlain) :: items)
            | Some (lo, hi, ts2) =>
                ts2 <~ eat ts2;
                '(lo', hi') <~ bounds lo hi (S pos);
                '(items', ts3) <~ quantify items lo' hi' pos ts2;
                parse_sub n' ts3 ng alts items'
            end
          else if Ascii.eqb c "." then
            parse_sub n' ts1 ng alts ((Any, KPlain) :: items)
          else if Ascii.eqb c "^" then
            parse_sub n' ts1 ng alts ((Bol, KAt) :: items)
          else if Ascii.eqb c "$" then
            parse_sub n' ts1 ng alts ((Eol, KAt) :: items)
          else parse_sub n' ts1 ng alts ((Lit c, KPlain) :: items)
      end
  end.

(** [sre_parse.parse] *)
Definition parse (p : string) : parsed (regex * nat) :=
  ts <~ eat (tokenize (chars p) 0);
  '(r, rest, ng) <~ parse_sub (S (length ts)) ts 0 [] [];
  match rest with
  | T _ _ pos :: _ => inl (Error "unbalanced parenthesis" pos)
  | _ => inr (r, ng)
  end.

(** Number of characters before the first newline of [l]. *)
Fixpoint to_newline (l : list ascii) : nat :=
  match l with
  | [] => 0
  | c :: t => if Ascii.eqb c newline then 0 else S (to_newline t)
  end.

(** [str] of a [re.error]: the message, the position and, for a pattern
    of several lines, the line and column. *)
Definition error_str (p : string) (msg : string) (pos : nat) : string :=
  let base := (msg ++ " at position " ++ pretty pos)%string in
  let before := take pos (chars p) in
  if existsb (Ascii.eqb newline) (chars p) then
    let line := S (length (filter (fun c => Ascii.eqb c newline) before)) in
    let col := S (to_newline (rev before)) in
    (base ++ " (line " ++ pretty line ++ ", column " ++ pretty col ++ ")")
      %string
  else base.

(** [re.compile(p, flags)] *)
Definition compile (p : string) (fl : flags) : result pattern :=
  match parse p with
  | inr (r, ng) => Ret {| expr := r; groups := ng; pflags := fl |}
  | inl (Error msg pos) => Raise (mk_exn re_error (error_str p msg pos))
  | inl Overflow =>
      Raise (mk_exn OverflowError_ "the repetition number is too large")
  | inl (Beyond what) =>
      Raise (mk_exn Unmodelled ("pattern syntax: " ++ what))
  end.

End Re.

(** ** The Python runtime and the outside world

    What the program gets from its interpreter and libraries, beyond the
    functions modelled above, is an interface: the theorems on the
    pipeline hold for every implementation of it. [cpython] below
    implements it with the model [Re]. *)

(** One element of the list [findall] returns: a [str], or a tuple of
    [str] for a pattern with several groups. *)
Inductive match_value :=
  | MStr (s : string)
  | MTuple (l : list string).

Class Runtime := {
  re_pattern : Type;
  (** [re.compile(pattern, flags)] *)
  re_compile : string -> Re.flags -> result re_pattern;
  (** [regex.findall(content)] *)
  re_findall : re_pattern -> string -> list match_value;
  (** [str(t)] of a tuple of [str] *)
  str_tuple : list string -> string;
  (** [list(set(l))]: the members of [l], each once, in an order that
      the language leaves open. *)
  list_set : list string -> list string;
  list_set_NoDup : forall l, NoDup (list_set l);
  list_set_elem : forall l x, x ∈ list_set l <-> x ∈ l
}.

Inductive param := PStr (s : string) | PInt (n : Z).

Record request := {
  url : string;
  req_headers : list (string * string);
  params : list (string * param)
}.

Record response := {
  status_code : Z;
  reason : string;
  resp_url : string;
  (** the body as [response.json()] decodes it, or the message of the
      decoding error *)
  body : string + json
}.

(** What the program does to the outside, in order. *)
Inductive event :=
  | EGet (r : request)
  | ESleep (seconds : Q).

Record datetime := {
  year : nat; month : nat; day : nat;
  hour : nat; minute : nat; second : nat
}.

(** [requests.get] either raises one of the exceptions of [requests] or
    returns a response; the answer may depend on everything done so far. *)
Inductive transport_failure :=
  | FConnection | FTimeout | FTooManyRedirects | FInvalidURL | FMissingSchema.

Definition failure_class (f : transport_failure) : exn_class :=
  match f with
  | FConnection => ConnectionError_
  | FTimeout => Timeout
  | FTooManyRedirects => TooManyRedirects
  | FInvalidURL => InvalidURL
  | FMissingSchema => MissingSchema
  end.

Class World := {
  requests_get : list event -> request -> (transport_failure * string) + response;
  datetime_now : list event -> datetime;
  (** [open(name, 'w')]: the message of the [OSError], if it fails *)
  open_fails : string -> option string
}.

(** ** The scraper object and the program state *)

(** An entry of [self.results]. *)
Record finding := {
  repo : string;
  file_path : string;
  file_url : string;
  matches : list (string * match_value)
}.

Record GitHubEnvScraper := {
  token : option string;
  headers : list (string * string);
  base_url : string;
  results : list finding
}.

Definition loc := nat.

Record state := {
  self : GitHubEnvScraper;
  (** the list objects that the caller and [scrape] share *)
  heap : gmap loc (list string);
  (** the lines printed *)
  stdout : list string;
  trace : list event;
  (** each file as the sequence of strings written to it *)
  files : gmap string (list string)
}.

(** A computation: a result or an exception, and the state it leaves. *)
Definition M (A : Type) : Type := state -> result A * state.

Definition ret {A} (a : A) : M A := fun st => (Ret a, st).
Definition raise {A} (e : exn) : M A := fun st => (Raise e, st).
Definition bind {A B} (c : M A) (k : A -> M B) : M B :=
  fun st => match c st with
            | (Ret a, st') => k a st'
            | (Raise e, st') => (Raise e, st')
            end.
Definition lift {A} (r : result A) : M A := fun st => (r, st).

Notation "'do' x <- c ; k" := (bind c (fun x => k))
  (at level 10, x name, c at level 100, k at level 200).
Notation "'do' ' x <- c ; k" := (bind c (fun x => k))
  (at level 10, x pattern, c at level 100, k at level 200).
Notation "c ;; k" := (bind c (fun _ => k))
  (at level 100, k at level 200, right associativity).

(** [try: body except cls as e: handler e] *)
Definition try_except {A} (body : M A) (cls : exn_class)
    (handler : exn -> M A) : M A :=
  fun st => match body st with
            | (Raise e, st') =>
                if issubclass (exn_cls e) cls then handler e st'
                else (Raise e, st')
            | r => r
            end.

(** [for x in l: body x] *)
Fixpoint for_each {X} (l : list X) (body : X -> M unit) : M unit :=
  match l with
  | [] => ret tt
  | x :: t => body x ;; for_each t body
  end.

(** A loop that appends to a local list: the list as it stands when the
    loop ends or an exception leaves it. *)
Fixpoint collect {X Y} (l : list X) (f : X -> result Y) (acc : list Y)
    : list Y * option exn :=
  match l with
  | [] => (acc, None)
  | x :: t =>
      match f x with
      | Ret y => collect t f (acc ++ [y])
      | Raise e => (acc, Some e)
      end
  end.

Definition set_self (f : GitHubEnvScraper -> GitHubEnvScraper) (st : state)
    : state :=
  {| self := f (self st); heap := heap st; stdout := stdout st;
     trace := trace st; files := files st |}.
Definition set_heap (h : gmap loc (list string)) (st : state) : state :=
  {| self := self st; heap := h; stdout := stdout st;
     trace := trace st; files := files st |}.
Definition set_stdout (o : list string) (st : state) : state :=
  {| self := self st; heap := heap st; stdout := o;
     trace := trace st; files := files st |}.
Definition set_trace (t : list event) (st : state) : state :=
  {| self := self st; heap := heap st; stdout := stdout st;
     trace := t; files := files st |}.
Definition set_files (f : gmap string (list string)) (st : state) : state :=
  {| self := self st; heap := heap st; stdout := stdout st;
     trace := trace st; files := f |}.

Definition print (line : string) : M unit :=
  fun st => (Ret tt, set_stdout (stdout st ++ [line]) st).

(** [time.sleep(seconds)] *)
Definition sleep (seconds : Q) : M unit :=
  fun st => (Ret tt, set_trace (trace st ++ [ESleep seconds]) st).

(** [self.results.append(f)] *)
Definition results_append (f : finding) : M unit :=
  fun st =>
    (Ret tt,
     set_self (fun s => {| token := token s; headers := headers s;
                           base_url := base_url s;
                           results := results s ++ [f] |}) st).

Definition get_self : M GitHubEnvScraper := fun st => (Ret (self st), st).

(** *** List objects *)

(** A new list object holding [l]. *)
Definition new_list (l : list string) : M loc :=
  fun st =>
    let r := fresh (dom (heap st)) in
    (Ret r, set_heap (<[r := l]> (heap st)) st).

Definition read_list (r : loc) : M (list string) :=
  fun st =>
    match heap st !! r with
    | Some l => (Ret l, st)
    | None => (Raise (mk_exn Unmodelled "no such list object"), st)
    end.

(** [r.copy()] *)
Definition list_copy (r : loc) : M loc :=
  do l <- read_list r; new_list l.

(** [r.extend(more)], in place. *)
Definition list_extend (r : loc) (more : list string) : M unit :=
  do l <- read_list r;
  fun st => (Ret tt, set_heap (<[r := l ++ more]> (heap st)) st).

(** ** [class GitHubEnvScraper] *)

Section Scraper.
Context `{R : Runtime} `{W : World}.

Local Open Scope string_scope.

(** [__init__(self, token)] *)
Definition init (token : option string) : GitHubEnvScraper :=
  {| token := token;
     headers :=
       match token with
       | Some t => if truthy t then [("Authorization", "token " ++ t)]
                   else []
       | None => []
       end;
     base_url := "https://api.github.com";
     results := [] |}.

(** [requests.get(url, headers=..., params=...)] *)
Definition get (req : request) : M response :=
  fun st =>
    let st' := set_trace (trace st ++ [EGet req]) st in
    match requests_get (trace st) req with
    | inl (f, msg) => (Raise (mk_exn (failure_class f) msg), st')
    | inr resp => (Ret resp, st')
    end.

(** [response.raise_for_status()] *)
Definition raise_for_status (r : response) : result unit :=
  let c := status_code r in
  if ((400 <=? c) && (c <? 500))%Z then
    Raise (mk_exn HTTPError
             (pretty c ++ " Client Error: " ++ reason r
              ++ " for url: " ++ resp_url r))
  else if ((500 <=? c) && (c <? 600))%Z then
    Raise (mk_exn HTTPError
             (pretty c ++ " Server Error: " ++ reason r
              ++ " for url: " ++ resp_url r))
  else Ret tt.

(** [response.json()]: a body that is not JSON raises
    [requests.exceptions.JSONDecodeError], a [RequestException] since
    requests 2.27. *)
Definition response_json (r : response) : result json :=
  match body r with
  | inr v => Ret v
  | inl msg => Raise (mk_exn JSONDecodeError msg)
  end.

(** The dictionaries [search_repos] returns. *)
Record repo_info := { name : string; repo_url : json; stars : json }.

Definition repo_entry (repo : json) : result repo_info :=
  rbind (Json.getitem repo "full_name") (fun n =>
  rbind (Json.getitem repo "html_url") (fun u =>
  rbind (Json.getitem repo "stargazers_count") (fun c =>
  rbind (Json.expect_str n) (fun n =>
  Ret {| name := n; repo_url := u; stars := c |})))).

(** The statements of a [try] body that follow the request: they work
    on the response and on a local list, which is returned as it
    stands together with the exception that interrupted them, if any. *)
Definition search_repos_items (resp : response) (max_repos : Z)
    : list repo_info * option exn :=
  match
    rbind (raise_for_status resp) (fun _ =>
    rbind (response_json resp) (fun data =>
    rbind (Json.get data "items" (JArr [])) (fun items =>
    rbind (Json.slice_to items max_repos) Json.iter)))
  with
  | Ret l => collect l repo_entry []
  | Raise e => ([], Some e)
  end.

(** The [except requests.exceptions.RequestException as e] clause of a
    method whose local list is [acc] when [e] reaches it. *)
Definition except_RequestException {X} (what : string)
    (acc : list X) (e : exn) : M (list X) :=
  if issubclass (exn_cls e) RequestException
  then print (what ++ exn_str e) ;; ret acc
  else raise e.

Definition search_repos (query : string) (max_repos : Z)
    : M (list repo_info) :=
  do s <- get_self;
  let url := base_url s ++ "/search/repositories" in
  let params := [("q", PStr query); ("sort", PStr "stars");
                 ("order", PStr "desc");
                 ("per_page", PInt (Z.min max_repos 100))] in
  fun st =>
    match get {| url := url; req_headers := headers s;
                 params := params |} st with
    | (Ret resp, st') =>
        match search_repos_items resp max_repos with
        | (repos, None) => ret repos st'
        | (repos, Some e) =>
            except_RequestException "Error searching repositories: "
              repos e st'
        end
    | (Raise e, st') =>
        except_RequestException "Error searching repositories: " [] e st'
    end.

(** The dictionaries [find_env_files] returns. *)
Record env_file_info := { path : string; content_url : string;
                          html_url : string }.

Definition env_file_entry (file : json) : result env_file_info :=
  rbind (Json.getitem file "path") (fun p =>
  rbind (Json.getitem file "url") (fun u =>
  rbind (Json.getitem file "html_url") (fun h =>
  rbind (Json.expect_str p) (fun p =>
  rbind (Json.expect_str u) (fun u =>
  rbind (Json.expect_str h) (fun h =>
  Ret {| path := p; content_url := u; html_url := h |})))))).

Definition find_env_files_items (resp : response)
    : list env_file_info * option exn :=
  match
    rbind (raise_for_status resp) (fun _ =>
    rbind (response_json resp) (fun data =>
    rbind (Json.get data "items" (JArr [])) Json.iter))
  with
  | Ret l => collect l env_file_entry []
  | Raise e => ([], Some e)
  end.

Definition find_env_files (repo_name : string) : M (list env_file_info) :=
  do s <- get_self;
  let url := base_url s ++ "/search/code" in
  let params := [("q", PStr ("filename:.env repo:" ++ repo_name));
                 ("per_page", PInt 100)] in
  fun st =>
    match get {| url := url; req_headers := headers s;
                 params := params |} st with
    | (Ret resp, st') =>
        match find_env_files_items resp with
        | (env_files, None) => ret env_files st'
        | (env_files, Some e) =>
            except_RequestException
              ("Error finding .env files in " ++ repo_name ++ ": ")
              env_files e st'
        end
    | (Raise e, st') =>
        except_RequestException
          ("Error finding .env files in " ++ repo_name ++ ": ") [] e st'
    end.

(** [base64.b64decode(v)] for a value of a response. *)
Definition b64decode (v : json) : result (list ascii) :=
  match v with
  | JStr s => Base64.b64decode s
  | _ =>
      Raise (mk_exn TypeError_
               ("argument should be a bytes-like object or ASCII string, "
                ++ "not '" ++ Json.type_name v ++ squote))
  end.

(** The body of the [try] of [get_file_content], after the request. *)
Definition decode_content (resp : response) : result string :=
  rbind (raise_for_status resp) (fun _ =>
  rbind (response_json resp) (fun data =>
  rbind (Json.getitem data "content") (fun c =>
  rbind (b64decode c) Utf8.decode))).

Definition get_file_content (file_url : string) : M string :=
  do s <- get_self;
  try_except
    (do resp <- get {| url := file_url; req_headers := headers s;
                       params := [] |};
     lift (decode_content resp))
    RequestException
    (fun e => print ("Error getting file content: " ++ exn_str e) ;;
              ret "").

Definition flags_of_scan : Re.flags :=
  {| Re.MULTILINE := true; Re.IGNORECASE := true |}.

(** The body of the loop of [apply_regex_patterns] for one pattern:
    the matches it appends. *)
Definition apply_pattern (content pattern : string)
    : M (list (string * match_value)) :=
  try_except
    (do regex <- lift (re_compile pattern flags_of_scan);
     let found_matches := re_findall regex content in
     ret (map (fun m => (pattern, m)) found_matches))
    re_error
    (fun e => print ("Invalid regex pattern '" ++ pattern ++ "': "
                     ++ exn_str e) ;;
              ret []).

Fixpoint apply_patterns_from (content : string) (patterns : list string)
    (matches : list (string * match_value))
    : M (list (string * match_value)) :=
  match patterns with
  | [] => ret matches
  | pattern :: rest =>
      do found <- apply_pattern content pattern;
      apply_patterns_from content rest (matches ++ found)%list
  end.

Definition apply_regex_patterns (content : string) (patterns : list string)
    : M (list (string * match_value)) :=
  apply_patterns_from content patterns [].

Definition delay : Q := 1 # 2.

(** The body of the loop over [env_files]. *)
Definition scan_file (repo_name : string) (patterns : list string)
    (env_file : env_file_info) : M unit :=
  print ("  Checking: " ++ path env_file) ;;
  do content <- get_file_content (content_url env_file);
  (if truthy content then
     do matches <- apply_regex_patterns content patterns;
     match matches with
     | [] => ret tt
     | _ :: _ =>
         results_append {| repo := repo_name;
                           file_path := path env_file;
                           file_url := html_url env_file;
                           matches := matches |} ;;
         print ("    Found " ++ pretty (length matches) ++ " matches!")
     end
   else ret tt) ;;
  sleep delay.

(** The body of the loop over [all_repos]. *)
Definition scan_repo (patterns : list string) (repo_name : string)
    : M unit :=
  print (nl ++ "Scanning repository: " ++ repo_name) ;;
  do env_files <- find_env_files repo_name;
  match env_files with
  | [] => print "  No .env files found"
  | _ :: _ =>
      print ("  Found " ++ pretty (length env_files) ++ " .env file(s)") ;;
      for_each env_files (scan_file repo_name patterns)
  end.

(** The repositories to scan: [repos.copy()], extended with the search
    results when a query is given, then [list(set(...))]. *)
Definition resolve (repos : loc) (search_query : option string)
    (max_repos : Z) : M loc :=
  do all_repos <- list_copy repos;
  (match search_query with
   | Some q =>
       if truthy q then
         print ("Searching for repositories matching '" ++ q ++ "'...") ;;
         do search_results <- search_repos q max_repos;
         list_extend all_repos (map name search_results)
       else ret tt
   | None => ret tt
   end) ;;
  do l <- read_list all_repos;
  new_list (list_set l).

Definition scrape (repos : loc) (patterns : list string)
    (search_query : option string) (max_repos : Z) : M unit :=
  do all_repos <- resolve repos search_query max_repos;
  do l <- read_list all_repos;
  print ("Scanning " ++ pretty (length l) ++ " repositories...") ;;
  for_each l (scan_repo patterns).

(** *** The report *)

Definition pad (width n : nat) : string :=
  let d := pretty n in
  repeat_char "0" (width - String.length d) ++ d.

(** [strftime('%Y-%m-%d %H:%M:%S')] *)
Definition strftime (t : datetime) : string :=
  pad 4 (year t) ++ "-" ++ pad 2 (month t) ++ "-" ++ pad 2 (day t) ++ " "
  ++ pad 2 (hour t) ++ ":" ++ pad 2 (minute t) ++ ":" ++ pad 2 (second t).

(** [str(match)] in an f-string. *)
Definition match_str (m : match_value) : string :=
  match m with MStr s => s | MTuple l => str_tuple l end.

(** [f.write(s)] on the file opened as [name]. *)
Definition write (name s : string) : M unit :=
  fun st =>
    (Ret tt,
     set_files (<[name := (default [] (files st !! name) ++ [s])%list]>
                  (files st))
               st).

(** [open(name, 'w')]: the file is created or emptied. *)
Definition open_w (name : string) : M unit :=
  fun st =>
    match open_fails name with
    | Some msg => (Raise (mk_exn OSError_ msg), st)
    | None => (Ret tt, set_files (<[name := []]> (files st)) st)
    end.

Definition now : M datetime := fun st => (Ret (datetime_now (trace st)), st).

Definition write_match (f : string) (pm : string * match_value) : M unit :=
  write f ("Pattern: " ++ fst pm ++ nl) ;;
  write f ("Match: " ++ match_str (snd pm) ++ nl) ;;
  write f nl.

Definition write_result (f : string) (result : finding) : M unit :=
  write f ("Repository: " ++ repo result ++ nl) ;;
  write f ("File: " ++ file_path result ++ nl) ;;
  write f ("URL: " ++ file_url result ++ nl) ;;
  write f (repeat_char "-" 40 ++ nl) ;;
  for_each (matches result) (write_match f) ;;
  write f (repeat_char "=" 80 ++ nl ++ nl).

Definition save_results (output_file : string) : M unit :=
  open_w output_file ;;
  write output_file ("GitHub .env File Scan Results" ++ nl) ;;
  do t <- now;
  write output_file ("Generated: " ++ strftime t ++ nl) ;;
  write output_file (repeat_char "=" 80 ++ nl ++ nl) ;;
  do s <- get_self;
  match results s with
  | [] => write output_file ("No matches found." ++ nl)
  | _ :: _ =>
      for_each (results s) (write_result output_file) ;;
      print (nl ++ "Results saved to " ++ output_file)
  end.

End Scraper.

(** ** The script

    The block under [if __name__ == "__main__"]: a scraper without token,
    an empty list of repositories, the ten rules, no search query. *)

(** [GitHubEnvScraper(token)]: the object the variable [scraper] holds. *)
Definition construct (token : option string) : M unit :=
  fun st => (Ret tt, set_self (fun _ => init token) st).

Definition regex_patterns : list string :=
  [ (* API Keys *)
    "(?:api[_-]?key|apikey)\s*=\s*[" ++ dquote ++ "\']?([a-zA-Z0-9_\-]+)["
      ++ dquote ++ "\']?";
    (* AWS Keys *)
    "(?:aws[_-]?access[_-]?key[_-]?id|aws[_-]?key)\s*=\s*[" ++ dquote
      ++ "\']?([A-Z0-9]{20})[" ++ dquote ++ "\']?";
    "(?:aws[_-]?secret[_-]?access[_-]?key|aws[_-]?secret)\s*=\s*[" ++ dquote
      ++ "\']?([a-zA-Z0-9/+=]{40})[" ++ dquote ++ "\']?";
    (* Database URLs *)
    "(?:database[_-]?url|db[_-]?url|mongo[_-]?uri)\s*=\s*[" ++ dquote
      ++ "\']?([^\s" ++ dquote ++ "\']+)[" ++ dquote ++ "\']?";
    (* JWT Secrets *)
    "(?:jwt[_-]?secret|secret[_-]?key)\s*=\s*[" ++ dquote
      ++ "\']?([a-zA-Z0-9_\-]+)[" ++ dquote ++ "\']?";
    (* Generic Secrets *)
    "(?:secret|password|passwd|pwd)\s*=\s*[" ++ dquote ++ "\']?([^\s"
      ++ dquote ++ "\']+)[" ++ dquote ++ "\']?";
    (* OAuth Tokens *)
    "(?:oauth[_-]?token|access[_-]?token|bearer[_-]?token)\s*=\s*[" ++ dquote
      ++ "\']?([a-zA-Z0-9_\-]+)[" ++ dquote ++ "\']?";
    (* Private Keys *)
    "(?:private[_-]?key|priv[_-]?key)\s*=\s*[" ++ dquote ++ "\']?([^\s"
      ++ dquote ++ "\']+)[" ++ dquote ++ "\']?";
    (* Email credentials *)
    "(?:email[_-]?password|smtp[_-]?password)\s*=\s*[" ++ dquote
      ++ "\']?([^\s" ++ dquote ++ "\']+)[" ++ dquote ++ "\']?";
    (* Stripe/Payment Keys *)
    "(?:stripe[_-]?key|stripe[_-]?secret)\s*=\s*[" ++ dquote
      ++ "\']?(sk_[a-zA-Z0-9]+)[" ++ dquote ++ "\']?" ]%string.

Definition main `{R : Runtime} `{W : World} : M unit :=
  construct None ;;
  do specific_repos <- new_list [];
  scrape specific_repos regex_patterns None 5 ;;
  save_results "github_env_matches.txt".

(** ** The runtime [cpython]

    [findall] reports the whole match for a pattern without groups, the
    text of the group for a pattern with one group, and the tuple of all
    groups otherwise. *)
Module CPython.

Local Open Scope string_scope.

Definition findall_item (p : Re.pattern) (s : string) (x : Re.match_obj)
    : match_value :=
  match Re.groups p with
  | O => MStr (Re.whole s x)
  | 1%nat => MStr (Re.group_text s x 1)
  | n => MTuple (map (Re.group_text s x) (seq 1 n))
  end.

Definition findall (p : Re.pattern) (s : string) : list match_value :=
  map (findall_item p s) (Re.finditer p s).

Definition hex_digit (n : N) : ascii :=
  if (n <? 10)%N then ascii_of_N (48 + n) else ascii_of_N (87 + n).

(** [repr] of a [str]: quotes, with the escapes of the interpreter for
    the quote, the backslash and the control characters. Characters
    outside ASCII are copied. *)
Definition repr_char (quote c : ascii) : string :=
  let bs := String Re.backslash "" in
  if Ascii.eqb c quote || Ascii.eqb c Re.backslash then bs ++ String c ""
  else if (code c =? 9)%N then bs ++ "t"
  else if (code c =? 10)%N then bs ++ "n"
  else if (code c =? 13)%N then bs ++ "r"
  else if (code c <? 32)%N || (code c =? 127)%N then
    bs ++ "x" ++ String (hex_digit (code c / 16)) ""
       ++ String (hex_digit (code c mod 16)) ""
  else String c "".

Definition repr (s : string) : string :=
  let has c := existsb (Ascii.eqb c) (chars s) in
  let quote : ascii :=
    if has (ascii_of_N 39) && negb (has (ascii_of_N 34))
    then ascii_of_N 34 else ascii_of_N 39 in
  String quote "" ++ String.concat "" (map (repr_char quote) (chars s))
  ++ String quote "".

Definition repr_tuple (l : list string) : string :=
  match l with
  | [x] => "(" ++ repr x ++ ",)"
  | _ => "(" ++ String.concat ", " (map repr l) ++ ")"
  end.

(** One of the orders [list(set(l))] may produce. *)
Definition set_order (l : list string) : list string :=
  elements (list_to_set l : gset string).

Definition set_order_NoDup (l : list string) : NoDup (set_order l) :=
  NoDup_elements (list_to_set l : gset string).

Definition set_order_elem (l : list string) (x : string)
    : x ∈ set_order l <-> x ∈ l :=
  iff_trans (elem_of_elements (list_to_set l : gset string) x)
            (elem_of_list_to_set (C := gset string) x l).

End CPython.

#[export] Instance cpython : Runtime := {|
  re_pattern := Re.pattern;
  re_compile := Re.compile;
  re_findall := CPython.findall;
  str_tuple := CPython.repr_tuple;
  list_set := CPython.set_order;
  list_set_NoDup := CPython.set_order_NoDup;
  list_set_elem := CPython.set_order_elem
|}.

(** ** Worlds for the examples *)
Module Example_.

Local Open Scope string_scope.

Definition ok (v : json) : (transport_failure * string) + response :=
  inr {| status_code := 200; reason := "OK"; resp_url := ""; body := inr v |}.

Definition is_code_search (r : request) : bool :=
  String.eqb (url r) "https://api.github.com/search/code".
Definition is_repo_search (r : request) : bool :=
  String.eqb (url r) "https://api.github.com/search/repositories".

Definition file (p : string) : json :=
  JObj [("path", JStr p); ("url", JStr ("https://api.github.com/contents/" ++ p));
        ("html_url", JStr ("https://github.com/a/b/blob/main/" ++ p))].

Definition a_repo (n : string) : json :=
  JObj [("full_name", JStr n); ("html_url", JStr ("https://github.com/" ++ n));
        ("stargazers_count", JNum 7)].

Definition noon : datetime :=
  {| year := 2024; month := 3; day := 9; hour := 12; minute := 0; second := 5 |}.

(** A world in which every repository has the files [paths], every
    file has the base64 body [b64], and a repository search finds
    [found]. *)
Definition serving (found paths : list string) (b64 : string) : World := {|
  requests_get := fun _ r =>
    if is_code_search r then ok (JObj [("items", JArr (map file paths))])
    else if is_repo_search r then ok (JObj [("items", JArr (map a_repo found))])
    else ok (JObj [("content", JStr b64); ("encoding", JStr "base64")]);
  datetime_now := fun _ => noon;
  open_fails := fun _ => None
|}.

Definition fresh_scraper : GitHubEnvScraper := init None.

(** A state in which the caller holds the list [repos] at location 0. *)
Definition start (repos : list string) : state :=
  {| self := fresh_scraper; heap := {[ 0%nat := repos ]}; stdout := [];
     trace := []; files := ∅ |}.


Definition api_key_line : string := "API_KEY=" ++ dquote ++ "abc123" ++ dquote.

End Example_.

(** ** Vocabulary of the specifications *)

(** A triple on computations: from a state that satisfies [P], a normal
    end satisfies [Q] and an exceptional end satisfies [E]. *)
Definition hoare {A} (P : state -> Prop) (c : M A)
    (Q : A -> state -> Prop) (E : exn -> state -> Prop) : Prop :=
  forall st, P st ->
    match c st with
    | (Ret a, st') => Q a st'
    | (Raise e, st') => E e st'
    end.

(** A property of states that only looks at some fields is kept by the
    updates of the others. *)
Record ignores_output (I : state -> Prop) : Prop := {
  ignores_stdout : forall st o, I st -> I (set_stdout o st);
  ignores_trace : forall st t, I st -> I (set_trace t st)
}.

(** A weaker form: the property is kept by printing and by sending a
    request that has parameters, as the two searches do. *)
Record ignores_searches (I : state -> Prop) : Prop := {
  quiet_stdout : forall st o, I st -> I (set_stdout o st);
  quiet_search : forall st req,
    params req <> [] -> I st -> I (set_trace (trace st ++ [EGet req]) st)
}.

(** The content fetch is the one request the program sends without
    parameters. *)
Definition is_fetch (e : event) : bool :=
  match e with
  | EGet r => match params r with [] => true | _ :: _ => false end
  | ESleep _ => false
  end.

(** [pace pending ev]: the events [ev] never hold two content fetches
    without a sleep of at least [delay] between them; [pending] says that
    a fetch is waiting for its sleep, at the start and in the answer. *)
Fixpoint pace (pending : bool) (ev : list event) : option bool :=
  match ev with
  | [] => Some pending
  | ESleep d :: t =>
      if Qle_bool delay d then pace false t
      else if Qle_bool 0 d then pace pending t
      else None
  | EGet r :: t =>
      if is_fetch (EGet r) then if pending then None else pace true t
      else pace pending t
  end.

(** The times of the content fetches, on a clock that starts at [clock]
    and that only the sleeps advance: a lower bound on the real ones. *)
Fixpoint fetch_times (clock : Q) (ev : list event) : list Q :=
  match ev with
  | [] => []
  | ESleep d :: t => fetch_times (clock + d) t
  | EGet r :: t =>
      if is_fetch (EGet r) then clock :: fetch_times clock t
      else fetch_times clock t
  end.

(** The strings [save_results] writes for one match, one finding, and a
    whole report. *)
Definition match_chunks `{R : Runtime} (pm : string * match_value)
    : list string :=
  [("Pattern: " ++ fst pm ++ nl)%string;
   ("Match: " ++ match_str (snd pm) ++ nl)%string;
   nl].

Definition finding_chunks `{R : Runtime} (f : finding) : list string :=
  [("Repository: " ++ repo f ++ nl)%string;
   ("File: " ++ file_path f ++ nl)%string;
   ("URL: " ++ file_url f ++ nl)%string;
   (repeat_char "-" 40 ++ nl)%string]
  ++ concat (map match_chunks (matches f))
  ++ [(repeat_char "=" 80 ++ nl ++ nl)%string].

Definition header_chunks (t : datetime) : list string :=
  [("GitHub .env File Scan Results" ++ nl)%string;
   ("Generated: " ++ strftime t ++ nl)%string;
   (repeat_char "=" 80 ++ nl ++ nl)%string].

Definition report_chunks `{R : Runtime} (t : datetime) (rs : list finding)
    : list string :=
  header_chunks t ++
  match rs with
  | [] => [("No matches found." ++ nl)%string]
  | _ :: _ => concat (map finding_chunks rs)
  end.

(** The matches one rule contributes to an evaluation, and the line it
    prints, when its compilation does not end the evaluation. *)
Definition rule_matches `{R : Runtime} (content pattern : string)
    : list (string * match_value) :=
  match re_compile pattern flags_of_scan with
  | Ret regex => map (fun m => (pattern, m)) (re_findall regex content)
  | Raise _ => []
  end.

Definition rule_report `{R : Runtime} (pattern : string) : list string :=
  match re_compile pattern flags_of_scan with
  | Ret _ => []
  | Raise e =>
      if issubclass (exn_cls e) re_error
      then [("Invalid regex pattern '" ++ pattern ++ "': " ++ exn_str e)%string]
      else []
  end.

(** A rule whose compilation raises [re.error]. *)
Definition malformed `{R : Runtime} (pattern : string) : Prop :=
  exists e, re_compile pattern flags_of_scan = Raise e
            /\ issubclass (exn_cls e) re_error = true.

(** A rule whose compilation raises something the program does not
    catch. *)
Definition fatal `{R : Runtime} (pattern : string) : Prop :=
  exists e, re_compile pattern flags_of_scan = Raise e
            /\ issubclass (exn_cls e) re_error = false.

(** The entry [scan_file] appends for a file with [content]. *)
Definition finding_of (repo_name : string) (env_file : env_file_info)
    (ms : list (string * match_value)) : finding :=
  {| repo := repo_name; file_path := path env_file;
     file_url := html_url env_file; matches := ms |}.

(** The request of a content fetch, and the state once a request is
    sent or a line is printed. *)
Definition fetch_request (st : state) (file_url : string) : request :=
  {| url := file_url; req_headers := headers (self st); params := [] |}.

Definition sent (req : request) (st : state) : state :=
  set_trace (trace st ++ [EGet req]) st.

Definition logged (line : string) (st : state) : state :=
  set_stdout (stdout st ++ [line]) st.

(** The state once [time.sleep(d)] returned, and once a finding is
    appended to [self.results]. *)
Definition slept (d : Q) (st : state) : state :=
  set_trace (trace st ++ [ESleep d]) st.

Definition recorded (f : finding) (st : state) : state :=
  snd (results_append f st).

(** The names [scrape] adds to its copy of the repository list: those of
    the search results when a query is given. *)
Definition search_names `{R : Runtime} `{W : World}
    (search_query : option string) (max_repos : Z) (st : state)
    : result (list string) * state :=
  match search_query with
  | Some q =>
      if truthy q then
        match search_repos q max_repos
                (logged ("Searching for repositories matching '" ++ q
                         ++ "'...")%string st) with
        | (Ret search_results, st') => (Ret (map name search_results), st')
        | (Raise e, st') => (Raise e, st')
        end
      else (Ret [], st)
  | None => (Ret [], st)
  end.

(** The findings a file contributes: one, holding all its matches, when
    its content is not empty and has a match. *)
Definition findings_for (repo_name : string) (env_file : env_file_info)
    (content : string) (ms : list (string * match_value)) : list finding :=
  if truthy content then
    match ms with
    | [] => []
    | _ :: _ => [finding_of repo_name env_file ms]
    end
  else [].

(** Matches in their order of occurrence: each starts where the one
    before ended, or later. *)
Fixpoint ordered_from (pos : nat) (l : list Re.match_obj) : Prop :=
  match l with
  | [] => True
  | x :: t =>
      (pos <= Re.m_start x)%nat /\ (Re.m_start x <= Re.m_end x)%nat
      /\ ordered_from (Re.m_end x) t
  end.

Definition in_text_order (l : list Re.match_obj) : Prop := ordered_from 0 l.

(** While [save_results] writes: the file [f] holds [chunks], and the
    scraper and the trace are those of the state [st0] it started from. *)
Definition writing (f : string) (st0 : state) (chunks : list string)
    (st : state) : Prop :=
  files st !! f = Some chunks /\ self st = self st0 /\ trace st = trace st0.

(** Times that are at least [delay] apart, each from the next. *)
Fixpoint separated (l : list Q) : Prop :=
  match l with
  | [] => True
  | a :: t =>
      match t with [] => True | b :: _ => (a + delay <= b)%Q end
      /\ separated t
  end.

(** Since the trace [t0], the run kept the pace, and a fetch is waiting
    for its sleep or not, as [pending] says. *)
Definition paced (t0 : list event) (pending : bool) (st : state) : Prop :=
  exists ev, trace st = t0 ++ ev /\ pace false ev = Some pending.

(** The state once [repos.copy()] made a list object of [l0]. *)
Definition copied (l0 : list string) (st : state) : state :=
  set_heap (<[fresh (dom (heap st)) := l0]> (heap st)) st.

(** The requests of the two searches. *)
Definition search_request (st : state) (query : string) (max_repos : Z)
    : request :=
  {| url := (base_url (self st) ++ "/search/repositories")%string;
     req_headers := headers (self st);
     params := [("q", PStr query); ("sort", PStr "stars");
                ("order", PStr "desc");
                ("per_page", PInt (Z.min max_repos 100))] |}.

Definition code_search_request (st : state) (repo_name : string) : request :=
  {| url := (base_url (self st) ++ "/search/code")%string;
     req_headers := headers (self st);
     params := [("q", PStr ("filename:.env repo:" ++ repo_name)%string);
                ("per_page", PInt 100)] |}.

(** A response that [raise_for_status] accepts and whose body is a JSON
    object with the list [items] under the key [items]. *)
Definition lists_items `{W : World} (resp : response) (items : list json)
    : Prop :=
  raise_for_status resp = Ret tt
  /\ exists kv, body resp = inr (JObj kv)
                /\ Json.assoc "items" kv = Some (JArr items).

(** Counts over a trace. *)
Definition count_fetches (ev : list event) : nat :=
  length (List.filter is_fetch ev).

Definition is_sleep (e : event) : bool :=
  match e with ESleep _ => true | EGet _ => false end.

Definition count_sleeps (ev : list event) : nat :=
  length (List.filter is_sleep ev).

(** A request carries the headers [h]. *)
Definition carries (h : list (string * string)) (e : event) : Prop :=
  match e with
  | EGet r => req_headers r = h
  | ESleep _ => True
  end.

(** A finding as a run makes them: it has a match, and every match is
    labelled with one of the rules. *)
Definition well_formed_finding (patterns : list string) (f : finding) : Prop :=
  matches f <> [] /\ forall pm, pm ∈ matches f -> fst pm ∈ patterns.

(** Between [st0] and [st] only the file [f] changed. *)
Definition only_file_changed (f : string) (st0 st : state) : Prop :=
  self st = self st0 /\ heap st = heap st0 /\ trace st = trace st0
  /\ stdout st = stdout st0
  /\ forall g, g <> f -> files st !! g = files st0 !! g.

(** The finding comes from the file [env_file] of [repo_name]. *)
Definition found_in (repo_name : string) (env_file : env_file_info)
    (f : finding) : Prop :=
  repo f = repo_name /\ file_path f = path env_file
  /\ file_url f = html_url env_file.

(** A rule that [cpython] compiles, with exactly one capturing group. *)
Definition one_group_rule (p : string) : Prop :=
  exists pt, Re.compile p flags_of_scan = Ret pt /\ Re.groups pt = 1%nat.

(** The standard base64 encoding (RFC 4648), which the API applies to
    the bytes of a file and which [get_file_content] undoes. *)
Definition b64char (n : N) : ascii :=
  if (n <? 26)%N then ascii_of_N (65 + n)
  else if (n <? 52)%N then ascii_of_N (71 + n)
  else if (n <? 62)%N then ascii_of_N (n - 4)
  else if (n =? 62)%N then "+"%char
  else "/"%char.

Fixpoint b64encode (l : list ascii) : list ascii :=
  match l with
  | [] => []
  | [a] =>
      [b64char (N.shiftr (code a) 2);
       b64char (N.shiftl (N.land (code a) 3) 4);
       "="%char; "="%char]
  | [a; b] =>
      [b64char (N.shiftr (code a) 2);
       b64char (N.lor (N.shiftl (N.land (code a) 3) 4) (N.shiftr (code b) 4));
       b64char (N.shiftl (N.land (code b) 15) 2);
       "="%char]
  | a :: b :: c :: t =>
      b64char (N.shiftr (code a) 2)
      :: b64char (N.lor (N.shiftl (N.land (code a) 3) 4)
                    (N.shiftr (code b) 4))
      :: b64char (N.lor (N.shiftl (N.land (code b) 15) 2)
                    (N.shiftr (code c) 6))
      :: b64char (N.land (code c) 63)
      :: b64encode t
  end.

(** The characters [a2b_base64] does not skip: the alphabet and the
    pad. *)
Definition significant (c : ascii) : bool :=
  Ascii.eqb c Base64.BASE64_PAD
  || match Base64.table_a2b_base64 c with Some _ => true | None => false end.

(** The documented contract of [Pattern.findall]: the text is scanned
    from left to right, the matches do not overlap, and the list holds,
    for each match, the whole match when the pattern has no group, the
    text of the group when it has one, and the tuple of the groups
    otherwise. [groups] and [finditer] stand for [Pattern.groups] and for
    the matches of the scan, as the runtime has them. *)
Definition findall_item (n : nat) (s : string) (x : Re.match_obj)
    : match_value :=
  match n with
  | O => MStr (Re.whole s x)
  | 1%nat => MStr (Re.group_text s x 1)
  | S (S k) => MTuple (map (Re.group_text s x) (seq 1 (S (S k))))
  end.

Definition findall_contract `{R : Runtime} (groups : re_pattern -> nat)
    (finditer : re_pattern -> string -> list Re.match_obj) : Prop :=
  forall regex content,
    re_findall regex content
    = map (findall_item (groups regex) content) (finditer regex content)
    /\ in_text_order (finditer regex content).

(** A rule that compiles, to a pattern with exactly one capturing
    group. *)
Definition one_group `{R : Runtime} (groups : re_pattern -> nat)
    (p : string) : Prop :=
  exists regex, re_compile p flags_of_scan = Ret regex
                /\ groups regex = 1%nat.


(** An exceptional end that does not happen. *)
Abbreviation never := (fun (_ : exn) (_ : state) => False).

(** ** Rules of the triples *)

Section Rules.
Context {A B : Type}.
Implicit Types (P : state -> Prop) (E : exn -> state -> Prop).

Lemma hoare_ret P (a : A) (Q : A -> state -> Prop) E :
  (forall st, P st -> Q a st) -> hoare P (ret a) Q E.
Proof. intros H st HP. simpl. auto. Qed.

Lemma hoare_raise P e (Q : A -> state -> Prop) E :
  (forall st, P st -> E e st) -> hoare P (raise e) Q E.
Proof. intros H st HP. simpl. auto. Qed.

Lemma hoare_lift P (r : result A) (Q : A -> state -> Prop) E :
  (forall st, P st -> match r with Ret a => Q a st | Raise e => E e st end) ->
  hoare P (lift r) Q E.
Proof. intros H st HP. unfold lift. specialize (H st HP). destruct r; auto. Qed.

Lemma hoare_bind P (c : M A) (k : A -> M B) (Q : A -> state -> Prop)
    (Q' : B -> state -> Prop) E :
  hoare P c Q E -> (forall a, hoare (Q a) (k a) Q' E) ->
  hoare P (bind c k) Q' E.
Proof.
  intros Hc Hk st HP. unfold bind. specialize (Hc st HP).
  destruct (c st) as [[a|e] st']; [apply (Hk a st' Hc) | exact Hc].
Qed.

Lemma hoare_try P (body : M A) cls handler (Q : A -> state -> Prop)
    (E0 E : exn -> state -> Prop) :
  hoare P body Q E0 ->
  (forall e, issubclass (exn_cls e) cls = true -> hoare (E0 e) (handler e) Q E) ->
  (forall e st, issubclass (exn_cls e) cls = false -> E0 e st -> E e st) ->
  hoare P (try_except body cls handler) Q E.
Proof.
  intros Hb Hh Hp st HP. unfold try_except. specialize (Hb st HP).
  destruct (body st) as [[a|e] st']; [exact Hb|].
  destruct (issubclass (exn_cls e) cls) eqn:Hc.
  - apply (Hh e Hc st' Hb).
  - apply (Hp e st' Hc Hb).
Qed.

Lemma hoare_conseq (P P' : state -> Prop) (c : M A)
    (Q Q' : A -> state -> Prop) (E E' : exn -> state -> Prop) :
  hoare P' c Q' E' ->
  (forall st, P st -> P' st) ->
  (forall a st, Q' a st -> Q a st) ->
  (forall e st, E' e st -> E e st) ->
  hoare P c Q E.
Proof.
  intros Hc HP HQ HE st Hst. specialize (Hc st (HP st Hst)).
  destruct (c st) as [[a|e] st']; auto.
Qed.

Lemma hoare_post P (c : M A) (Q Q' : A -> state -> Prop) E :
  hoare P c Q' E -> (forall a st, Q' a st -> Q a st) -> hoare P c Q E.
Proof. intros Hc HQ. eapply hoare_conseq; eauto. Qed.

End Rules.

(** A loop keeps its invariant; an exception leaves it with what the
    body guarantees then. *)
Lemma hoare_for_each {X} (I : state -> Prop) (E : exn -> state -> Prop)
    (l : list X) (body : X -> M unit) :
  (forall x, x ∈ l -> hoare I (body x) (fun _ => I) E) ->
  hoare I (for_each l body) (fun _ => I) E.
Proof.
  induction l as [|x t IH]; intros Hb.
  - apply hoare_ret. auto.
  - simpl. eapply hoare_bind.
    + apply Hb. set_solver.
    + intros []. apply IH. intros y Hy. apply Hb. set_solver.
Qed.

(** ** The Pattern Engine: [apply_regex_patterns] *)

Section Engine.
Context `{R : Runtime}.

(** One rule: its matches, or its report and nothing, or the
    exception the program does not catch. *)
Lemma apply_pattern_run content pattern st :
  apply_pattern content pattern st =
  match re_compile pattern flags_of_scan with
  | Ret regex =>
      (Ret (map (fun m => (pattern, m)) (re_findall regex content)), st)
  | Raise e =>
      if issubclass (exn_cls e) re_error
      then (Ret [],
            set_stdout (stdout st ++
              [("Invalid regex pattern '" ++ pattern ++ "': "
                ++ exn_str e)%string]) st)
      else (Raise e, st)
  end.
Proof.
  unfold apply_pattern, try_except, bind, lift, ret.
  destruct (re_compile pattern flags_of_scan) as [regex|e]; [reflexivity|].
  destruct (issubclass (exn_cls e) re_error); reflexivity.
Qed.

Lemma apply_pattern_sound content pattern st :
  ~ fatal pattern ->
  apply_pattern content pattern st =
  (Ret (rule_matches content pattern),
   set_stdout (stdout st ++ rule_report pattern) st).
Proof.
  intros Hnf. rewrite apply_pattern_run. unfold rule_matches, rule_report.
  destruct (re_compile pattern flags_of_scan) as [regex|e] eqn:Hc.
  - rewrite app_nil_r. destruct st; reflexivity.
  - destruct (issubclass (exn_cls e) re_error) eqn:Hs; [reflexivity|].
    exfalso. apply Hnf. exists e. auto.
Qed.

(** The result of an evaluation does not depend on the state. *)
Lemma apply_patterns_from_fst content patterns :
  forall acc st st',
    fst (apply_patterns_from content patterns acc st) =
    fst (apply_patterns_from content patterns acc st').
Proof.
  induction patterns as [|p t IH]; intros acc st st'; [reflexivity|].
  simpl. unfold bind. rewrite !apply_pattern_run.
  destruct (re_compile p flags_of_scan) as [regex|e]; [apply IH|].
  destruct (issubclass (exn_cls e) re_error); [apply IH | reflexivity].
Qed.

Lemma apply_patterns_from_sound content patterns :
  Forall (fun p => ~ fatal p) patterns ->
  forall acc st,
    apply_patterns_from content patterns acc st =
    (Ret (acc ++ concat (map (rule_matches content) patterns)),
     set_stdout (stdout st ++ concat (map rule_report patterns)) st).
Proof.
  induction 1 as [|p t Hp Ht IH]; intros acc st.
  - simpl. rewrite !app_nil_r. destruct st; reflexivity.
  - simpl. unfold bind. rewrite (apply_pattern_sound _ _ _ Hp).
    rewrite IH. simpl. rewrite <- !app_assoc. reflexivity.
Qed.

(** A rule that is not compiled to the end stops the evaluation only
    if the exception is not [re.error]. *)
Lemma apply_patterns_from_app content l1 l2 :
  forall acc st,
    apply_patterns_from content (l1 ++ l2) acc st =
    match apply_patterns_from content l1 acc st with
    | (Ret ms, st') => apply_patterns_from content l2 ms st'
    | (Raise e, st') => (Raise e, st')
    end.
Proof.
  induction l1 as [|p t IH]; intros acc st; [reflexivity|].
  simpl. unfold bind.
  destruct (apply_pattern content p st) as [[found|e] st1]; [apply IH | reflexivity].
Qed.

(** The evaluation only prints. *)
Lemma apply_patterns_from_state content patterns :
  forall acc st, exists lines,
    snd (apply_patterns_from content patterns acc st) =
    set_stdout (stdout st ++ lines) st.
Proof.
  induction patterns as [|p t IH]; intros acc st.
  - exists []. simpl. rewrite app_nil_r. destruct st; reflexivity.
  - simpl. unfold bind. rewrite apply_pattern_run.
    destruct (re_compile p flags_of_scan) as [regex|e].
    + apply IH.
    + destruct (issubclass (exn_cls e) re_error).
      * destruct (IH (acc ++ []) (set_stdout (stdout st ++
          [("Invalid regex pattern '" ++ p ++ "': " ++ exn_str e)%string]) st))
          as [lines Hl].
        eexists. rewrite Hl. simpl. rewrite <- app_assoc. reflexivity.
      * exists []. simpl. rewrite app_nil_r. destruct st; reflexivity.
Qed.

End Engine.

(** ** The Remote Content Client *)

Section Client.
Context `{R : Runtime} `{W : World}.

Lemma failure_class_caught f :
  issubclass (failure_class f) RequestException = true.
Proof. destruct f; reflexivity. Qed.

(** What a content fetch does, case by case. *)
Lemma get_file_content_run file_url st :
  get_file_content file_url st =
  let req := fetch_request st file_url in
  match requests_get (trace st) req with
  | inl (f, msg) =>
      (Ret "", logged ("Error getting file content: " ++ msg) (sent req st))
  | inr resp =>
      match decode_content resp with
      | Ret content => (Ret content, sent req st)
      | Raise e =>
          if issubclass (exn_cls e) RequestException
          then (Ret "", logged ("Error getting file content: " ++ exn_str e)
                          (sent req st))
          else (Raise e, sent req st)
      end
  end.
Proof.
  unfold get_file_content, try_except, bind, get_self, get, lift, print, ret,
    fetch_request, sent, logged. simpl.
  destruct (requests_get _ _) as [[f msg]|resp]; simpl.
  - rewrite failure_class_caught. reflexivity.
  - destruct (decode_content resp) as [content|e]; [reflexivity|].
    destruct (issubclass (exn_cls e) RequestException); reflexivity.
Qed.

Lemma ignores_output_searches I : ignores_output I -> ignores_searches I.
Proof. intros [H1 H2]. split; auto. Qed.

Section Quiet.
Variable I : state -> Prop.
Hypothesis HQ : ignores_searches I.

Lemma print_keeps line : hoare I (print line) (fun _ => I) (fun _ => I).
Proof. intros st H. simpl. now apply HQ. Qed.

Lemma except_RequestException_keeps {X} what (acc : list X) e :
  hoare I (except_RequestException what acc e) (fun _ => I) (fun _ => I).
Proof.
  intros st H. unfold except_RequestException.
  destruct (issubclass _ _); simpl; [now apply HQ | exact H].
Qed.

Lemma search_repos_keeps query max_repos :
  hoare I (search_repos query max_repos) (fun _ => I) (fun _ => I).
Proof.
  intros st H. unfold search_repos, bind, get_self, get.
  destruct (requests_get _ _) as [[f msg]|resp].
  - apply except_RequestException_keeps.
    apply (quiet_search I HQ); [discriminate | exact H].
  - destruct (search_repos_items resp max_repos) as [repos [e|]].
    + apply except_RequestException_keeps.
      apply (quiet_search I HQ); [discriminate | exact H].
    + simpl. apply (quiet_search I HQ); [discriminate | exact H].
Qed.

Lemma find_env_files_keeps repo_name :
  hoare I (find_env_files repo_name) (fun _ => I) (fun _ => I).
Proof.
  intros st H. unfold find_env_files, bind, get_self, get.
  destruct (requests_get _ _) as [[f msg]|resp].
  - apply except_RequestException_keeps.
    apply (quiet_search I HQ); [discriminate | exact H].
  - destruct (find_env_files_items resp) as [env_files [e|]].
    + apply except_RequestException_keeps.
      apply (quiet_search I HQ); [discriminate | exact H].
    + simpl. apply (quiet_search I HQ); [discriminate | exact H].
Qed.

Lemma apply_regex_patterns_keeps content patterns :
  hoare I (apply_regex_patterns content patterns) (fun _ => I) (fun _ => I).
Proof.
  intros st H. unfold apply_regex_patterns.
  destruct (apply_patterns_from_state content patterns [] st) as [lines Hl].
  destruct (apply_patterns_from content patterns [] st) as [[ms|e] st'];
    simpl in Hl; subst st'; now apply HQ.
Qed.

End Quiet.

Section Keeps.
Variable I : state -> Prop.
Hypothesis HI : ignores_output I.

Lemma keeps_logged line st : I st -> I (logged line st).
Proof. apply HI. Qed.

Lemma keeps_sent req st : I st -> I (sent req st).
Proof. apply HI. Qed.

Lemma sleep_keeps d : hoare I (sleep d) (fun _ => I) (fun _ => I).
Proof. intros st H. simpl. now apply HI. Qed.

Lemma get_file_content_keeps file_url :
  hoare I (get_file_content file_url) (fun _ => I) (fun _ => I).
Proof.
  intros st H. rewrite get_file_content_run. cbv zeta.
  destruct (requests_get _ _) as [[f msg]|resp];
    [auto using keeps_logged, keeps_sent|].
  destruct (decode_content resp) as [content|e];
    [auto using keeps_sent|].
  destruct (issubclass _ _); auto using keeps_logged, keeps_sent.
Qed.

End Keeps.

End Client.

(** ** The Scan Orchestrator *)

Section Orchestrator.
Context `{R : Runtime} `{W : World}.

(** One file, case by case. *)
Lemma scan_file_run repo_name patterns env_file st :
  scan_file repo_name patterns env_file st =
  match get_file_content (content_url env_file)
          (logged ("  Checking: " ++ path env_file) st) with
  | (Raise e, st1) => (Raise e, st1)
  | (Ret content, st1) =>
      if truthy content then
        match apply_regex_patterns content patterns st1 with
        | (Raise e, st2) => (Raise e, st2)
        | (Ret [], st2) => (Ret tt, slept delay st2)
        | (Ret (m :: ms), st2) =>
            (Ret tt,
             slept delay
               (logged ("    Found " ++ pretty (length (m :: ms))
                        ++ " matches!")
                  (recorded (finding_of repo_name env_file (m :: ms)) st2)))
        end
      else (Ret tt, slept delay st1)
  end.
Proof.
  unfold scan_file, bind, print, logged. simpl.
  destruct (get_file_content _ _) as [[content|e] st1]; [|reflexivity].
  destruct (truthy content); [|reflexivity].
  destruct (apply_regex_patterns _ _ _) as [[[|m ms]|e] st2]; reflexivity.
Qed.

Section Keeps.
Variable I : state -> Prop.
Hypothesis HI : ignores_output I.
Hypothesis HA : forall st f, I st -> I (recorded f st).

Lemma scan_file_keeps repo_name patterns env_file :
  hoare I (scan_file repo_name patterns env_file)
    (fun _ => I) (fun _ => I).
Proof.
  intros st H. rewrite scan_file_run.
  pose proof (get_file_content_keeps I HI (content_url env_file)
                (logged ("  Checking: " ++ path env_file) st)
                (keeps_logged I HI _ _ H)) as H1.
  destruct (get_file_content _ _) as [[content|e] st1]; [|exact H1].
  destruct (truthy content); [|now apply HI].
  pose proof (apply_regex_patterns_keeps I (ignores_output_searches I HI)
                content patterns st1 H1) as H2.
  destruct (apply_regex_patterns _ _ _) as [[[|m ms]|e] st2];
    [now apply HI | | exact H2].
  apply HI. apply (keeps_logged I HI). now apply HA.
Qed.

Lemma scan_repo_keeps patterns repo_name :
  hoare I (scan_repo patterns repo_name) (fun _ => I) (fun _ => I).
Proof.
  pose proof (ignores_output_searches I HI) as HQ.
  unfold scan_repo. eapply hoare_bind; [apply (print_keeps I HQ)|].
  intros []. eapply hoare_bind; [apply (find_env_files_keeps I HQ)|].
  intros [|f fs]; [apply (print_keeps I HQ)|].
  eapply hoare_bind; [apply (print_keeps I HQ)|].
  intros []. apply hoare_for_each. intros x _. apply scan_file_keeps.
Qed.

Lemma scan_keeps patterns l :
  hoare I (for_each l (scan_repo patterns)) (fun _ => I) (fun _ => I).
Proof. apply hoare_for_each. intros x _. apply scan_repo_keeps. Qed.

End Keeps.

(** The search leaves the list objects alone. *)
Lemma search_names_heap search_query max_repos st :
  heap (snd (search_names search_query max_repos st)) = heap st.
Proof.
  unfold search_names. destruct search_query as [q|]; [|reflexivity].
  destruct (truthy q); [|reflexivity].
  assert (Hk : ignores_searches (fun s => heap s = heap st))
    by (split; intros; assumption).
  pose proof (search_repos_keeps _ Hk q max_repos
                (logged ("Searching for repositories matching '" ++ q
                         ++ "'...") st) eq_refl) as H.
  destruct (search_repos _ _ _) as [[sr|e] st']; exact H.
Qed.

(** The resolution of the repository list, case by case: a copy [a] of
    the caller's list, extended in place, and a new list [b] for its
    members. *)
Lemma resolve_run repos l0 search_query max_repos st :
  heap st !! repos = Some l0 ->
  resolve repos search_query max_repos st =
  let a := fresh (dom (heap st)) in
  match search_names search_query max_repos
          (set_heap (<[a := l0]> (heap st)) st) with
  | (Raise e, st1) => (Raise e, st1)
  | (Ret found, st1) =>
      let h1 := <[a := (l0 ++ found)%list]> (heap st1) in
      let b := fresh (dom h1) in
      (Ret b, set_heap (<[b := list_set (l0 ++ found)]> h1) st1)
  end.
Proof.
  intros Hr. cbv zeta.
  pose proof (search_names_heap search_query max_repos
                (set_heap (<[fresh (dom (heap st)) := l0]> (heap st)) st))
    as Hh.
  unfold resolve, list_copy, list_extend, read_list, new_list, bind.
  rewrite Hr. unfold search_names in *.
  destruct search_query as [q|].
  - destruct (truthy q).
    + unfold print, logged in *. simpl in *.
      destruct (search_repos q max_repos _) as [[sr|e] st1]; [|reflexivity].
      simpl in *.
      assert (Ha : heap st1 !! fresh (dom (heap st)) = Some l0)
        by (rewrite Hh; apply lookup_insert_eq).
      rewrite Ha. simpl. rewrite lookup_insert_eq. reflexivity.
    + simpl. rewrite lookup_insert_eq. rewrite app_nil_r.
      rewrite insert_insert_eq. reflexivity.
  - simpl. rewrite lookup_insert_eq. rewrite app_nil_r.
    rewrite insert_insert_eq. reflexivity.
Qed.

End Orchestrator.

(** ** Properties of the pipeline *)

Import Example_.

Section Fetch.
Context `{W : World}.

(** The failures the handler of [get_file_content] covers: a request
    that raises, an error status, a body that is not JSON. *)
Lemma get_file_content_caught file_url st :
  match requests_get (trace st) (fetch_request st file_url) with
  | inl _ => True
  | inr resp =>
      ((400 <=? status_code resp) && (status_code resp <? 600))%Z = true
      \/ (exists msg, body resp = inl msg)
  end ->
  fst (get_file_content file_url st) = Ret "".
Proof.
  rewrite get_file_content_run. cbv zeta.
  destruct (requests_get _ _) as [[f msg]|resp]; [reflexivity|].
  unfold decode_content, raise_for_status, response_json.
  intros [Hs|[msg Hb]].
  - destruct ((400 <=? status_code resp) && (status_code resp <? 500))%Z eqn:H4;
      [reflexivity|].
    destruct ((500 <=? status_code resp) && (status_code resp <? 600))%Z eqn:H5;
      [reflexivity|]. exfalso.
    apply andb_prop in Hs. destruct Hs as [Ha Hb].
    rewrite Ha in H4. simpl in H4.
    apply Z.ltb_ge in H4. apply Z.leb_le in H4. rewrite H4 in H5.
    simpl in H5. congruence.
  - rewrite Hb.
    destruct ((400 <=? status_code resp) && (status_code resp <? 500))%Z;
      [reflexivity|].
    destruct ((500 <=? status_code resp) && (status_code resp <? 600))%Z;
      reflexivity.
Qed.

End Fetch.

(** C1, evaluated where the code departs from it: a file whose bytes
    are not UTF-8 (here the single byte 233, sent as the base64 text
    [6Q==]) makes [get_file_content] raise [UnicodeDecodeError], which is
    not a [RequestException]: the handler does not catch it, no empty
    string is returned, and [scrape] ends with the exception at the first
    such file, the second file of the repository is never fetched. *)
Theorem get_file_content_decode_error_escapes :
  let W := serving [] [".env"; "config/.env"] "6Q==" in
  let e := mk_exn UnicodeDecodeError_
             "'utf-8' codec can't decode bytes: invalid data" in
  issubclass (exn_cls e) RequestException = false
  /\ fst (get_file_content "https://api.github.com/contents/.env"
            (start ["a/b"])) = Raise e
  /\ fst (scrape 0%nat ["(x)"] None 5 (start ["a/b"])) = Raise e
  /\ length (filter (fun ev => is_fetch ev)
               (trace (snd (scrape 0%nat ["(x)"] None 5 (start ["a/b"])))))
     = 1%nat.
Proof. vm_compute. repeat split. Qed.

(** C2 as stated fails: the content of an empty file has a match for
    a rule that captures a possibly empty run of [x], and no finding is
    appended for the file. *)
Lemma empty_content_match_without_finding :
  let W := serving [] [".env"] "" in
  let f := {| path := ".env";
              content_url := "https://api.github.com/contents/.env";
              html_url := "https://github.com/a/b/blob/main/.env" |} in
  let st := start ["a/b"] in
  fst (get_file_content (content_url f) st) = Ret ""
  /\ fst (apply_regex_patterns "" ["(x*)"] st) = Ret [("(x*)", MStr "")]
  /\ fst (scan_file "a/b" ["(x*)"] f st) = Ret tt
  /\ results (self (snd (scan_file "a/b" ["(x*)"] f st))) = [].
Proof. vm_compute. repeat split. Qed.

(** C2, amended: for a file whose fetch returns [content] and whose
    rules evaluate to the matches [ms], [scan_file] appends to the
    results exactly [findings_for]: one finding that holds all of [ms],
    in order, when [content] is not empty and [ms] is not, and nothing
    otherwise. *)
Theorem scan_file_appends_finding :
  forall `{R : Runtime} `{W : World} repo_name patterns env_file st
         content st1 ms,
    get_file_content (content_url env_file)
      (logged ("  Checking: " ++ path env_file)%string st)
      = (Ret content, st1) ->
    fst (apply_regex_patterns content patterns st1) = Ret ms ->
    fst (scan_file repo_name patterns env_file st) = Ret tt
    /\ results (self (snd (scan_file repo_name patterns env_file st)))
       = results (self st) ++ findings_for repo_name env_file content ms.
Proof.
  intros R W repo_name patterns env_file st content st1 ms Hg Ha.
  assert (Hk : ignores_output (fun s => results (self s) = results (self st)))
    by (split; intros; assumption).
  pose proof (get_file_content_keeps _ Hk (content_url env_file)
                (logged ("  Checking: " ++ path env_file)%string st) eq_refl)
    as H1.
  rewrite scan_file_run, Hg in *. unfold findings_for.
  destruct (truthy content).
  - assert (Hk1 : ignores_output (fun s => results (self s) = results (self st1)))
      by (split; intros; assumption).
    pose proof (apply_regex_patterns_keeps _ (ignores_output_searches _ Hk1)
                  content patterns st1 eq_refl) as H2.
    destruct (apply_regex_patterns content patterns st1) as [[ms'|e] st2];
      simpl in Ha; [|discriminate].
    injection Ha as ->. destruct ms as [|m ms]; simpl.
    + rewrite app_nil_r. split; [reflexivity | congruence].
    + split; [reflexivity|]. simpl in H2. rewrite H2, H1. reflexivity.
  - simpl. rewrite app_nil_r. split; [reflexivity | exact H1].
Qed.

Lemma scan_file_appends_finding_witness :
  let W := serving [] [".env"] "QVBJX0tFWT0iYWJjMTIzIg==" in
  let f := {| path := ".env";
              content_url := "https://api.github.com/contents/.env";
              html_url := "https://github.com/a/b/blob/main/.env" |} in
  let rule := "api_key=.([a-z0-9]+)" in
  let st := start ["a/b"] in
  fst (scan_file "a/b" [rule; "secret=(.*)"] f st) = Ret tt
  /\ results (self (snd (scan_file "a/b" [rule; "secret=(.*)"] f st)))
     = results (self st)
       ++ findings_for "a/b" f ("API_KEY=" ++ dquote ++ "abc123" ++ dquote)%string
            [(rule, MStr "abc123")].
Proof.
  intros W f rule st.
  apply (scan_file_appends_finding "a/b" [rule; "secret=(.*)"] f st
           ("API_KEY=" ++ dquote ++ "abc123" ++ dquote)%string
           (snd (get_file_content (content_url f)
                   (logged ("  Checking: " ++ path f)%string st)))
           [(rule, MStr "abc123")]);
    vm_compute; reflexivity.
Defined.

(** C3 as stated fails on "never retried": the rule is compiled again
    at every evaluation. In a run over two files, the rule with an
    unclosed parenthesis is reported twice. *)
Lemma malformed_rule_retried_at_each_file :
  let W := serving [] [".env"; "config/.env"] "QVBJX0tFWT0iYWJjMTIzIg==" in
  let report :=
    "Invalid regex pattern '(': missing ), unterminated subpattern at position 0" in
  let st := snd (scrape 0%nat ["("; "api_key=.([a-z0-9]+)"] None 5
                   (start ["a/b"])) in
  filter (String.eqb report) (stdout st) = [report; report]
  /\ length (results (self st)) = 2%nat.
Proof. vm_compute. split; reflexivity. Qed.

Lemma apply_regex_patterns_without `{R : Runtime} content l1 bad l2 st :
  malformed bad ->
  fst (apply_regex_patterns content (l1 ++ bad :: l2) st)
  = fst (apply_regex_patterns content (l1 ++ l2) st).
Proof.
  intros [e [Hc Hs]]. unfold apply_regex_patterns.
  rewrite !apply_patterns_from_app.
  destruct (apply_patterns_from content l1 [] st) as [[ms|e'] st1];
    [|reflexivity].
  simpl. unfold bind. rewrite apply_pattern_run, Hc, Hs. rewrite app_nil_r.
  apply apply_patterns_from_fst.
Qed.

(** C3, amended: a rule whose compilation raises [re.error] does not
    end the evaluation and contributes no match: the evaluation returns
    what it returns without the rule. When no other rule raises an
    exception the program does not catch, the evaluation returns the
    matches of the other rules, in order, and prints the report of the
    malformed rule; this holds from every state, so at every evaluation
    of the run: the rule is compiled and reported again each time. *)
Theorem malformed_rule_skipped_and_reported :
  forall `{R : Runtime} content l1 bad l2 st,
    malformed bad ->
    fst (apply_regex_patterns content (l1 ++ bad :: l2) st)
    = fst (apply_regex_patterns content (l1 ++ l2) st)
    /\ (Forall (fun p => ~ fatal p) (l1 ++ l2) ->
        fst (apply_regex_patterns content (l1 ++ bad :: l2) st)
        = Ret (concat (map (rule_matches content) (l1 ++ l2)))
        /\ exists e,
             re_compile bad flags_of_scan = Raise e
             /\ stdout (snd (apply_regex_patterns content (l1 ++ bad :: l2) st))
                = stdout st ++ concat (map rule_report l1)
                  ++ [("Invalid regex pattern '" ++ bad ++ "': "
                       ++ exn_str e)%string]
                  ++ concat (map rule_report l2)).
Proof.
  intros R content l1 bad l2 st Hbad. split.
  - now apply apply_regex_patterns_without.
  - intros Hnf. destruct Hbad as [e [Hc Hs]].
    assert (Hb : ~ fatal bad).
    { intros [e' [Hc' Hs']]. rewrite Hc in Hc'. injection Hc' as <-.
      congruence. }
    assert (Hall : Forall (fun p => ~ fatal p) (l1 ++ bad :: l2)).
    { apply Forall_app in Hnf. destruct Hnf as [H1 H2].
      apply Forall_app. split; [exact H1 | constructor; assumption]. }
    unfold apply_regex_patterns.
    rewrite (apply_patterns_from_sound content _ Hall). simpl. split.
    + rewrite !map_app, !concat_app. simpl.
      unfold rule_matches at 2. rewrite Hc. reflexivity.
    + exists e. split; [exact Hc|].
      rewrite map_app, concat_app. simpl.
      unfold rule_report at 2. rewrite Hc, Hs. reflexivity.
Qed.

Lemma malformed_rule_skipped_and_reported_witness :
  let content := "API_KEY=abc123" in
  let st := start [] in
  fst (apply_regex_patterns content (["api_key=(.*)"] ++ "(" :: ["key=(.)"]) st)
  = fst (apply_regex_patterns content (["api_key=(.*)"] ++ ["key=(.)"]) st)
  /\ (Forall (fun p => ~ fatal p) (["api_key=(.*)"] ++ ["key=(.)"]) ->
      fst (apply_regex_patterns content
             (["api_key=(.*)"] ++ "(" :: ["key=(.)"]) st)
      = Ret (concat (map (rule_matches content)
                       (["api_key=(.*)"] ++ ["key=(.)"])))
      /\ exists e,
           re_compile "(" flags_of_scan = Raise e
           /\ stdout (snd (apply_regex_patterns content
                             (["api_key=(.*)"] ++ "(" :: ["key=(.)"]) st))
              = stdout st ++ concat (map rule_report ["api_key=(.*)"])
                ++ [("Invalid regex pattern '" ++ "(" ++ "': "
                     ++ exn_str e)%string]
                ++ concat (map rule_report ["key=(.)"])).
Proof.
  intros content st.
  apply (malformed_rule_skipped_and_reported (R := cpython) content
           ["api_key=(.*)"] "(" ["key=(.)"] st).
  eexists. vm_compute. split; reflexivity.
Defined.

(** ** The matcher only moves forward *)

Section Forward.
Variable fl : Re.flags.
Variable s : list ascii.
Variable A : Type.

Lemma one_forward p i caps (k : nat -> Re.captures -> option A) x :
  Re.one s A p i caps k = Some x ->
  exists j c, (i <= j)%nat /\ k j c = Some x.
Proof.
  unfold Re.one. destruct (nth_error s i) as [ch|]; [|discriminate].
  destruct (p ch); [|discriminate]. intros H. exists (S i), caps. auto.
Qed.

Lemma guard_forward b i caps (k : nat -> Re.captures -> option A) x :
  Re.guard A b i caps k = Some x ->
  exists j c, (i <= j)%nat /\ k j c = Some x.
Proof.
  unfold Re.guard. destruct b; [|discriminate]. intros H.
  exists i, caps. auto.
Qed.

Lemma m_forward r :
  forall i caps (k : nat -> Re.captures -> option A) x,
    Re.m fl s A r i caps k = Some x ->
    exists j c, (i <= j)%nat /\ k j c = Some x.
Proof.
  induction r as [| c | | neg items | | | | | neg | r1 IH1 r2 IH2
                  | r1 IH1 r2 IH2 | n r1 IH1 | r1 IH1 lo hi greedy];
    intros i caps k x H; simpl in H;
    try (apply one_forward in H; exact H);
    try (apply guard_forward in H; exact H).
  - exists i, caps. auto.
  - apply IH1 in H. destruct H as (j & c & Hj & H).
    apply IH2 in H. destruct H as (j' & c' & Hj' & H).
    exists j', c'. split; [lia | exact H].
  - unfold Re.orelse in H.
    destruct (Re.m fl s A r1 i caps k) eqn:H1.
    + injection H as <-. now apply IH1 in H1.
    + now apply IH2 in H.
  - apply IH1 in H. destruct H as (j & c & Hj & H). eauto.
  - cbv zeta in H. revert H. generalize (lo + length s + 1)%nat as rounds.
    generalize 0%nat as count. intros count rounds. revert count i caps x.
    induction rounds as [|rounds IHr]; intros count i caps x H;
      [discriminate|].
    destruct (Nat.ltb count lo).
    + apply IH1 in H. destruct H as (j & c & Hj & H).
      apply IHr in H. destruct H as (j' & c' & Hj' & H).
      exists j', c'. split; [lia | exact H].
    + destruct greedy; unfold Re.orelse in H.
      * destruct (Re.under hi count); [|exists i, caps; auto].
        match type of H with
        | match ?a with _ => _ end = _ => destruct a as [y|] eqn:Ha
        end; [|exists i, caps; auto].
        injection H as <-.
        apply IH1 in Ha. destruct Ha as (j & c & Hj & Ha).
        destruct (Nat.eqb j i); [eauto|].
        apply IHr in Ha. destruct Ha as (j' & c' & Hj' & Ha).
        exists j', c'. split; [lia | exact Ha].
      * destruct (k i caps) as [y|] eqn:Hk.
        -- injection H as <-. exists i, caps. auto.
        -- destruct (Re.under hi count); [|discriminate].
           apply IH1 in H. destruct H as (j & c & Hj & H).
           destruct (Nat.eqb j i); [eauto|].
           apply IHr in H. destruct H as (j' & c' & Hj' & H).
           exists j', c'. split; [lia | exact H].
Qed.

End Forward.

(** ** The scanner of [findall] goes left to right *)

Lemma search_from_forward fl s r n :
  forall pos adv x,
    Re.search_from fl s r n pos adv = Some x ->
    (pos <= Re.m_start x)%nat /\ (Re.m_start x <= Re.m_end x)%nat.
Proof.
  induction n as [|n IH]; intros pos adv x H; simpl in H.
  - destruct (Re.m _ _ _ _ _ _ _) as [y|] eqn:Hm; [|discriminate].
    injection H as <-. apply m_forward in Hm.
    destruct Hm as (j & c & Hj & Hk).
    destruct (adv && Nat.eqb j pos); [discriminate|].
    injection Hk as <-. simpl. lia.
  - destruct (Re.m _ _ _ _ _ _ _) as [y|] eqn:Hm.
    + injection H as <-. apply m_forward in Hm.
      destruct Hm as (j & c & Hj & Hk).
      destruct (adv && Nat.eqb j pos); [discriminate|].
      injection Hk as <-. simpl. lia.
    + apply IH in H. lia.
Qed.

Lemma scan_ordered fl s r n :
  forall pos adv, ordered_from pos (Re.scan fl s r n pos adv).
Proof.
  induction n as [|n IH]; intros pos adv; simpl; [exact I|].
  destruct (Nat.leb pos (length s)); [|exact I].
  destruct (Re.search fl s r pos adv) as [x|] eqn:Hs; [|exact I].
  simpl. apply search_from_forward in Hs. destruct Hs as [H1 H2].
  repeat split; [exact H1 | exact H2 | apply IH].
Qed.

Lemma finditer_in_text_order p s : in_text_order (Re.finditer p s).
Proof. apply scan_ordered. Qed.

(** ** The Report Sink *)

Section Report.
Context `{R : Runtime} `{W : World}.
Variable f : string.
Variable st0 : state.

Lemma write_spec old s :
  hoare (writing f st0 old) (write f s)
    (fun _ => writing f st0 (old ++ [s])) never.
Proof.
  intros st (Hf & Hs & Ht). unfold writing. simpl.
  rewrite Hf, lookup_insert_eq. auto.
Qed.

Lemma write_match_spec old pm :
  hoare (writing f st0 old) (write_match f pm)
    (fun _ => writing f st0 (old ++ match_chunks pm)) never.
Proof.
  unfold write_match, match_chunks.
  eapply hoare_bind; [apply write_spec|]. intros [].
  eapply hoare_bind; [apply write_spec|]. intros [].
  eapply hoare_post; [apply write_spec|].
  intros [] st. rewrite <- !app_assoc. auto.
Qed.

Lemma write_matches_spec ms :
  forall old,
    hoare (writing f st0 old) (for_each ms (write_match f))
      (fun _ => writing f st0 (old ++ concat (map match_chunks ms))) never.
Proof.
  induction ms as [|pm ms IH]; intros old.
  - apply hoare_ret. intros st. simpl. now rewrite app_nil_r.
  - simpl. eapply hoare_bind; [apply write_match_spec|]. intros [].
    eapply hoare_post; [apply IH|].
    intros [] st. rewrite <- app_assoc. auto.
Qed.

Lemma write_result_spec old result :
  hoare (writing f st0 old) (write_result f result)
    (fun _ => writing f st0 (old ++ finding_chunks result)) never.
Proof.
  unfold write_result, finding_chunks.
  eapply hoare_bind; [apply write_spec|]. intros [].
  eapply hoare_bind; [apply write_spec|]. intros [].
  eapply hoare_bind; [apply write_spec|]. intros [].
  eapply hoare_bind; [apply write_spec|]. intros [].
  eapply hoare_bind; [apply write_matches_spec|]. intros [].
  eapply hoare_post; [apply write_spec|].
  intros [] st. rewrite <- !app_assoc. auto.
Qed.

Lemma write_results_spec rs :
  forall old,
    hoare (writing f st0 old) (for_each rs (write_result f))
      (fun _ => writing f st0 (old ++ concat (map finding_chunks rs))) never.
Proof.
  induction rs as [|r rs IH]; intros old.
  - apply hoare_ret. intros st. simpl. now rewrite app_nil_r.
  - simpl. eapply hoare_bind; [apply write_result_spec|]. intros [].
    eapply hoare_post; [apply IH|].
    intros [] st. rewrite <- app_assoc. auto.
Qed.

(** The report, when the file can be opened: the header and the
    findings, in the order of [self.results]. *)
Lemma save_results_spec :
  open_fails f = None ->
  hoare (fun st => st = st0) (save_results f)
    (fun _ st =>
       files st !! f
       = Some (report_chunks (datetime_now (trace st0)) (results (self st0)))
       /\ self st = self st0)
    never.
Proof.
  intros Ho. unfold save_results.
  eapply hoare_bind with (Q := fun _ => writing f st0 []).
  { intros st ->. unfold open_w. rewrite Ho. unfold writing. simpl.
    rewrite lookup_insert_eq. auto. }
  intros []. eapply hoare_bind; [apply write_spec|]. intros [].
  eapply hoare_bind with
    (Q := fun t st =>
            t = datetime_now (trace st0)
            /\ writing f st0 [("GitHub .env File Scan Results" ++ nl)%string]
                 st).
  { intros st H. unfold now. simpl. split; [|exact H].
    destruct H as (_ & _ & ->). reflexivity. }
  intros t. eapply hoare_bind with
    (Q := fun _ st =>
            t = datetime_now (trace st0)
            /\ writing f st0
                 ([("GitHub .env File Scan Results" ++ nl)%string]
                  ++ [("Generated: " ++ strftime t ++ nl)%string]) st).
  { intros st [Ht H].
    pose proof (write_spec _ ("Generated: " ++ strftime t ++ nl)%string st H)
      as H1.
    destruct (write f _ st) as [[[]|e] st1]; [|contradiction]. auto. }
  intros []. eapply hoare_bind with
    (Q := fun _ st => t = datetime_now (trace st0)
                      /\ writing f st0 (header_chunks t) st).
  { intros st [Ht H].
    pose proof (write_spec _ (repeat_char "=" 80 ++ nl ++ nl)%string st H)
      as H1.
    destruct (write f _ st) as [[[]|e] st1]; [|contradiction]. auto. }
  intros []. eapply hoare_bind with
    (Q := fun s st => s = self st0 /\ t = datetime_now (trace st0)
                      /\ writing f st0 (header_chunks t) st).
  { intros st [Ht H]. unfold get_self.
    split; [apply H | split; assumption]. }
  intros s st (-> & -> & H). unfold report_chunks.
  destruct (results (self st0)) as [|r rs] eqn:Hr.
  - pose proof (write_spec _ ("No matches found." ++ nl)%string st H) as H1.
    destruct (write f _ st) as [[[]|e] st1]; [|contradiction].
    destruct H1 as (H1 & H2 & _). auto.
  - pose proof (write_results_spec (r :: rs) _ st H) as H1. unfold bind.
    destruct (for_each (r :: rs) (write_result f) st) as [[[]|e] st1];
      [|contradiction].
    destruct H1 as (H1 & H2 & _). simpl. auto.
Qed.

End Report.

Section Written.
Context `{R : Runtime} `{W : World}.

Lemma save_results_run f st :
  open_fails f = None ->
  fst (save_results f st) = Ret tt
  /\ files (snd (save_results f st)) !! f
     = Some (report_chunks (datetime_now (trace st)) (results (self st)))
  /\ self (snd (save_results f st)) = self st.
Proof.
  intros Ho. pose proof (save_results_spec f st Ho st eq_refl) as H.
  destruct (save_results f st) as [[[]|e] st']; [|contradiction].
  simpl. tauto.
Qed.

Lemma apply_regex_patterns_in_rule_order content patterns :
  forall acc st ms,
    fst (apply_patterns_from content patterns acc st) = Ret ms ->
    ms = acc ++ concat (map (rule_matches content) patterns).
Proof.
  induction patterns as [|p t IH]; intros acc st ms H.
  - simpl in *. rewrite app_nil_r. congruence.
  - simpl in H. unfold bind in H. rewrite apply_pattern_run in H.
    simpl. unfold rule_matches at 1.
    destruct (re_compile p flags_of_scan) as [regex|e].
    + apply IH in H. now rewrite app_assoc.
    + destruct (issubclass (exn_cls e) re_error); [|discriminate].
      apply IH in H. now rewrite app_assoc.
Qed.

End Written.

(** C7: a run without findings still writes a report: the title, the
    line of the generation time, the delimiter, and the line that says
    that nothing was found. *)
Theorem empty_run_writes_no_matches_found :
  forall `{R : Runtime} `{W : World} f st,
    open_fails f = None ->
    results (self st) = [] ->
    fst (save_results f st) = Ret tt
    /\ files (snd (save_results f st)) !! f
       = Some [("GitHub .env File Scan Results" ++ nl)%string;
               ("Generated: " ++ strftime (datetime_now (trace st)) ++ nl)%string;
               (repeat_char "=" 80 ++ nl ++ nl)%string;
               ("No matches found." ++ nl)%string].
Proof.
  intros R W f st Ho Hr.
  destruct (save_results_run f st Ho) as (H1 & H2 & _).
  split; [exact H1|]. rewrite H2, Hr. reflexivity.
Qed.

Lemma empty_run_writes_no_matches_found_witness :
  let W := serving [] [] "" in
  let st := snd (scrape 0%nat ["(x)"] None 5 (start ["a/b"; "c/d"])) in
  fst (save_results "github_env_matches.txt" st) = Ret tt
  /\ files (snd (save_results "github_env_matches.txt" st))
       !! "github_env_matches.txt"
     = Some [("GitHub .env File Scan Results" ++ nl)%string;
             ("Generated: " ++ strftime (datetime_now (trace st)) ++ nl)%string;
             (repeat_char "=" 80 ++ nl ++ nl)%string;
             ("No matches found." ++ nl)%string].
Proof.
  intros W st.
  apply (empty_run_writes_no_matches_found (R := cpython));
    vm_compute; reflexivity.
Defined.

(** ** Whole runs *)

Section Runs.
Context `{R : Runtime} `{W : World}.

Section With.
Variable I : state -> Prop.
Variable E : exn -> state -> Prop.
Hypothesis HQ : ignores_searches I.
Hypothesis HH : forall st h, I st -> I (set_heap h st).
Hypothesis HE : forall e st, I st -> E e st.
Hypothesis Hfile : forall repo_name patterns env_file,
  hoare I (scan_file repo_name patterns env_file) (fun _ => I) E.

Lemma weaken {A} (c : M A) :
  hoare I c (fun _ => I) (fun _ => I) -> hoare I c (fun _ => I) E.
Proof. intros H. eapply hoare_conseq; eauto. Qed.

Lemma scan_repo_with patterns repo_name :
  hoare I (scan_repo patterns repo_name) (fun _ => I) E.
Proof.
  unfold scan_repo.
  eapply hoare_bind; [apply weaken, (print_keeps I HQ)|].
  intros []. eapply hoare_bind;
    [apply weaken, (find_env_files_keeps I HQ)|].
  intros [|f fs]; [apply weaken, (print_keeps I HQ)|].
  eapply hoare_bind; [apply weaken, (print_keeps I HQ)|].
  intros []. apply hoare_for_each. intros x _. apply Hfile.
Qed.

Lemma read_list_keeps r :
  hoare I (read_list r) (fun _ => I) (fun _ => I).
Proof. intros st H. unfold read_list. destruct (heap st !! r); exact H. Qed.

Lemma new_list_keeps l :
  hoare I (new_list l) (fun _ => I) (fun _ => I).
Proof. intros st H. simpl. now apply HH. Qed.

Lemma list_extend_keeps r more :
  hoare I (list_extend r more) (fun _ => I) (fun _ => I).
Proof.
  intros st H. unfold list_extend, bind, read_list.
  destruct (heap st !! r); [now apply HH | exact H].
Qed.

Lemma resolve_keeps repos search_query max_repos :
  hoare I (resolve repos search_query max_repos)
    (fun _ => I) (fun _ => I).
Proof.
  unfold resolve, list_copy.
  eapply hoare_bind.
  { eapply hoare_bind; [apply read_list_keeps|].
    intros l. apply new_list_keeps. }
  intros all_repos. eapply hoare_bind with (Q := fun _ => I).
  { destruct search_query as [q|]; [|apply hoare_ret; auto].
    destruct (truthy q); [|apply hoare_ret; auto].
    eapply hoare_bind; [apply (print_keeps I HQ)|]. intros [].
    eapply hoare_bind; [apply (search_repos_keeps I HQ)|].
    intros sr. apply list_extend_keeps. }
  intros []. eapply hoare_bind; [apply read_list_keeps|].
  intros l. apply new_list_keeps.
Qed.

Lemma scrape_with repos patterns search_query max_repos :
  hoare I (scrape repos patterns search_query max_repos) (fun _ => I) E.
Proof.
  unfold scrape.
  eapply hoare_bind; [apply weaken, resolve_keeps|].
  intros all_repos. eapply hoare_bind; [apply weaken, read_list_keeps|].
  intros l. eapply hoare_bind; [apply weaken, (print_keeps I HQ)|].
  intros []. apply hoare_for_each. intros x _. apply scan_repo_with.
Qed.

End With.

(** A property that ignores what is printed, the trace and the list
    objects, and that a new finding keeps, holds after a run if it
    held before, however the run ends. *)
Lemma scrape_keeps (I : state -> Prop) repos patterns search_query max_repos :
  ignores_output I ->
  (forall st h, I st -> I (set_heap h st)) ->
  (forall st f, I st -> I (recorded f st)) ->
  forall st, I st ->
    I (snd (scrape repos patterns search_query max_repos st)).
Proof.
  intros HI HH HA st H.
  pose proof (scrape_with I (fun _ => I) (ignores_output_searches I HI) HH
                (fun _ _ H => H)
                (fun r p f => scan_file_keeps I HI HA r p f)
                repos patterns search_query max_repos st H) as Hs.
  destruct (scrape _ _ _ _ st) as [[[]|e] st']; exact Hs.
Qed.

(** [self.results] only grows. *)
Lemma scrape_results repos patterns search_query max_repos st :
  exists new,
    results (self (snd (scrape repos patterns search_query max_repos st)))
    = results (self st) ++ new.
Proof.
  apply (scrape_keeps
           (fun s => exists new, results (self s) = results (self st) ++ new)).
  - split; intros; assumption.
  - intros; assumption.
  - intros s f [new H]. exists (new ++ [f]). unfold recorded. simpl.
    rewrite H, app_assoc. reflexivity.
  - exists []. now rewrite app_nil_r.
Qed.

End Runs.

(** C10: [scrape] never clears [self.results]: after a call the earlier
    entries are still there, in front of the new ones. Two calls on the
    same instance leave the findings of both, and the report written
    afterwards is the report of all of them. *)
Theorem results_accumulate_across_runs :
  forall `{R : Runtime} `{W : World} st
         repos1 patterns1 query1 max1 repos2 patterns2 query2 max2 f,
    let st1 := snd (scrape repos1 patterns1 query1 max1 st) in
    let st2 := snd (scrape repos2 patterns2 query2 max2 st1) in
    exists new1 new2,
      results (self st1) = results (self st) ++ new1
      /\ results (self st2) = results (self st) ++ new1 ++ new2
      /\ (open_fails f = None ->
          files (snd (save_results f st2)) !! f
          = Some (report_chunks (datetime_now (trace st2))
                    (results (self st) ++ new1 ++ new2))).
Proof.
  intros R W st repos1 patterns1 query1 max1 repos2 patterns2 query2 max2 f
         st1 st2.
  destruct (scrape_results repos1 patterns1 query1 max1 st) as [new1 H1].
  destruct (scrape_results repos2 patterns2 query2 max2 st1) as [new2 H2].
  exists new1, new2. fold st1 in H1. fold st2 in H2.
  split; [exact H1 | split].
  - rewrite H2, H1, app_assoc. reflexivity.
  - intros Ho. destruct (save_results_run f st2 Ho) as (_ & Hf & _).
    rewrite Hf, H2, H1, app_assoc. reflexivity.
Qed.

Lemma results_accumulate_across_runs_witness :
  let W := serving [] [".env"] "QVBJX0tFWT0iYWJjMTIzIg==" in
  let st := start ["a/b"] in
  let st1 := snd (scrape 0%nat ["key=.(.)"] None 5 st) in
  let st2 := snd (scrape 0%nat ["api_key=.([a-z0-9]+)"] None 5 st1) in
  exists new1 new2,
    results (self st1) = results (self st) ++ new1
    /\ results (self st2) = results (self st) ++ new1 ++ new2
    /\ (open_fails "out.txt" = None ->
        files (snd (save_results "out.txt" st2)) !! "out.txt"
        = Some (report_chunks (datetime_now (trace st2))
                  (results (self st) ++ new1 ++ new2))).
Proof.
  intros W st st1 st2.
  exact (results_accumulate_across_runs (R := cpython) st
           0%nat ["key=.(.)"] None 5 0%nat ["api_key=.([a-z0-9]+)"] None 5
           "out.txt").
Defined.

(** The two runs of the witness leave one finding each, and the report
    has both. *)
Example two_runs_one_report :
  let W := serving [] [".env"] "QVBJX0tFWT0iYWJjMTIzIg==" in
  let st1 := snd (scrape 0%nat ["key=.(.)"] None 5 (start ["a/b"])) in
  let st2 := snd (scrape 0%nat ["api_key=.([a-z0-9]+)"] None 5 st1) in
  map matches (results (self st1)) = [[("key=.(.)", MStr "a")]]
  /\ map matches (results (self st2))
     = [[("key=.(.)", MStr "a")]; [("api_key=.([a-z0-9]+)", MStr "abc123")]]
  /\ filter (fun c => String.prefix "Match: " c)
       (default [] (files (snd (save_results "out.txt" st2)) !! "out.txt"))
     = [("Match: a" ++ nl)%string; ("Match: abc123" ++ nl)%string].
Proof. vm_compute. repeat split. Qed.

(** ** The caller's list and the resolved list *)

Section Resolve.
Context `{R : Runtime} `{W : World}.

Lemma fresh_other (h : gmap loc (list string)) r l :
  h !! r = Some l -> fresh (dom h) <> r.
Proof.
  intros Hr Heq. apply (is_fresh (dom h)). rewrite Heq.
  apply elem_of_dom. eauto.
Qed.

(** What [resolve] leaves in the heap. *)
Lemma resolve_heap repos l0 search_query max_repos st :
  heap st !! repos = Some l0 ->
  match search_names search_query max_repos (copied l0 st) with
  | (Raise e, st1) =>
      resolve repos search_query max_repos st = (Raise e, st1)
      /\ heap st1 !! repos = Some l0
  | (Ret found, st1) =>
      exists r st',
        resolve repos search_query max_repos st = (Ret r, st')
        /\ heap st' !! r = Some (list_set (l0 ++ found))
        /\ heap st' !! repos = Some l0
        /\ self st' = self st1 /\ stdout st' = stdout st1
        /\ trace st' = trace st1
  end.
Proof.
  intros Hr. rewrite (resolve_run repos l0 _ _ st Hr). cbv zeta.
  pose proof (search_names_heap search_query max_repos (copied l0 st)) as Hh.
  pose proof (fresh_other _ _ _ Hr) as Ha.
  unfold copied in *.
  destruct (search_names _ _ _) as [[found|e] st1]; simpl in Hh.
  - eexists _, _. split; [reflexivity|]. simpl.
    rewrite lookup_insert_eq. split; [reflexivity|].
    split; [|auto].
    assert (H1 : (<[fresh (dom (heap st)) := (l0 ++ found)%list]> (heap st1))
                 !! repos = Some l0).
    { rewrite lookup_insert_ne by exact Ha. rewrite Hh.
      rewrite lookup_insert_ne by exact Ha. exact Hr. }
    rewrite lookup_insert_ne; [exact H1|]. now apply fresh_other with l0.
  - split; [reflexivity|]. rewrite Hh.
    rewrite lookup_insert_ne by exact Ha. exact Hr.
Qed.

End Resolve.

(** C9: [scrape] leaves the list object the caller passed as it was: the
    search results are appended to a copy, and the list without
    duplicates is another new object. This holds however the call
    ends. *)
Theorem scrape_leaves_caller_list :
  forall `{R : Runtime} `{W : World} repos l0 patterns search_query max_repos st,
    heap st !! repos = Some l0 ->
    heap (snd (scrape repos patterns search_query max_repos st)) !! repos
    = Some l0.
Proof.
  intros R W repos l0 patterns search_query max_repos st Hr.
  pose proof (resolve_heap repos l0 search_query max_repos st Hr) as H.
  unfold scrape, bind.
  destruct (search_names _ _ _) as [[found|e] st1].
  - destruct H as (r & st' & -> & Hl & Hk & _).
    unfold read_list. rewrite Hl. unfold print. simpl.
    assert (HI : ignores_output (fun s => heap s !! repos = Some l0))
      by (split; intros; assumption).
    pose proof (scan_keeps _ HI (fun _ _ H => H) patterns
                  (list_set (l0 ++ found))
                  (logged ("Scanning "
                           ++ pretty (length (list_set (l0 ++ found)))
                           ++ " repositories...")%string st') Hk) as Hs.
    unfold logged in Hs.
    destruct (for_each _ _ _) as [[[]|e] st2]; exact Hs.
  - destruct H as [-> Hk]. exact Hk.
Qed.

Lemma scrape_leaves_caller_list_witness :
  let W := serving ["x/y"; "a/b"] [".env"] "QVBJX0tFWT0iYWJjMTIzIg==" in
  heap (snd (scrape 0%nat ["api_key=.([a-z0-9]+)"] (Some "stars:>10") 5
               (start ["a/b"; "a/b"]))) !! 0%nat
  = Some ["a/b"; "a/b"].
Proof.
  intros W.
  apply (scrape_leaves_caller_list (R := cpython)). reflexivity.
Defined.

(** C5: the list of repositories that [scrape] iterates over has no
    duplicates, and its members are those of the caller's list and the
    names the search returned: each appears exactly once, however often
    it occurs in the two. When the search raises an exception that the
    program does not catch, the call ends with it. *)
Theorem resolved_repositories_are_unique :
  forall `{R : Runtime} `{W : World} repos l0 patterns search_query max_repos st,
    heap st !! repos = Some l0 ->
    match search_names search_query max_repos (copied l0 st) with
    | (Raise e, _) =>
        fst (scrape repos patterns search_query max_repos st) = Raise e
    | (Ret found, _) =>
        exists l st',
          NoDup l
          /\ (forall x, x ∈ l <-> x ∈ l0 \/ x ∈ found)
          /\ (forall x, x ∈ l0 \/ x ∈ found ->
                count_occ string_dec l x = 1%nat)
          /\ scrape repos patterns search_query max_repos st
             = (print ("Scanning " ++ pretty (length l)
                       ++ " repositories...")%string ;;
                for_each l (scan_repo patterns)) st'
    end.
Proof.
  intros R W repos l0 patterns search_query max_repos st Hr.
  pose proof (resolve_heap repos l0 search_query max_repos st Hr) as H.
  destruct (search_names _ _ _) as [[found|e] st1].
  - destruct H as (r & st' & Hres & Hl & _).
    exists (list_set (l0 ++ found)), st'.
    assert (Hmem : forall x, x ∈ list_set (l0 ++ found) <-> x ∈ l0 \/ x ∈ found).
    { intros x. rewrite list_set_elem. apply elem_of_app. }
    split; [apply list_set_NoDup | split; [exact Hmem | split]].
    + intros x Hx.
      apply NoDup_count_occ'; [apply NoDup_ListNoDup, list_set_NoDup|].
      apply list_elem_of_In, Hmem, Hx.
    + unfold scrape. unfold bind at 1. rewrite Hres.
      unfold bind at 1. unfold read_list. rewrite Hl. reflexivity.
  - destruct H as [Hres _]. unfold scrape, bind. rewrite Hres. reflexivity.
Qed.

Lemma resolved_repositories_are_unique_witness :
  let W := serving ["a/b"] [] "" in
  exists l st',
    NoDup l
    /\ (forall x, x ∈ l <-> x ∈ ["a/b"; "a/b"] \/ x ∈ ["a/b"])
    /\ (forall x, x ∈ ["a/b"; "a/b"] \/ x ∈ ["a/b"] ->
          count_occ string_dec l x = 1%nat)
    /\ scrape 0%nat ["(x)"] (Some "q") 10 (start ["a/b"; "a/b"])
       = (print ("Scanning " ++ pretty (length l)
                 ++ " repositories...")%string ;;
          for_each l (scan_repo ["(x)"])) st'.
Proof.
  intros W.
  exact (resolved_repositories_are_unique (R := cpython) 0%nat ["a/b"; "a/b"]
           ["(x)"] (Some "q") 10 (start ["a/b"; "a/b"]) eq_refl).
Defined.

(** The deduplication scenario, run: the caller lists [a/b] twice, the
    search finds it again, and one repository is scanned. *)
Example deduplication_scenario :
  let W := serving ["a/b"] [] "" in
  let st := snd (scrape 0%nat ["(x)"] (Some "q") 10 (start ["a/b"; "a/b"])) in
  filter (fun line => String.prefix "Scanning" line) (stdout st)
  = ["Scanning 1 repositories..."]
  /\ length (List.filter (fun ev => match ev with
                                    | EGet r => is_code_search r
                                    | _ => false
                                    end) (trace st)) = 1%nat.
Proof. vm_compute. split; reflexivity. Qed.

(** ** The pace of the content fetches *)

Lemma pace_app ev1 :
  forall pending ev2,
    pace pending (ev1 ++ ev2)
    = match pace pending ev1 with
      | Some b => pace b ev2
      | None => None
      end.
Proof.
  induction ev1 as [|e t IH]; intros pending ev2; [reflexivity|].
  simpl. destruct e as [r|d].
  - destruct (params r); [destruct pending; [reflexivity | apply IH] | apply IH].
  - destruct (Qle_bool delay d); [apply IH|].
    destruct (Qle_bool 0 d); [apply IH | reflexivity].
Qed.

(** A trace that keeps the pace has its fetches [delay] apart, the first
    one also from an earlier fetch at [before], when that one had its
    sleep or is still waiting for it. *)
Lemma pace_separated ev :
  forall pending clock before b,
    pace pending ev = Some b ->
    (pending = false -> before + delay <= clock)%Q ->
    (before <= clock)%Q ->
    separated (before :: fetch_times clock ev).
Proof.
  induction ev as [|e t IH]; intros pending clock before b Hp Hd Hc.
  - simpl. auto.
  - destruct e as [r|d]; simpl in Hp; simpl fetch_times.
    + destruct (params r) eqn:Hf.
      * destruct pending; [discriminate|].
        split; [apply Hd; reflexivity|].
        apply (IH true clock clock b Hp); [discriminate | lra].
      * apply (IH pending clock before b Hp Hd Hc).
    + destruct (Qle_bool delay d) eqn:H1.
      * apply Qle_bool_iff in H1.
        apply (IH false (clock + d)%Q before b Hp); intros;
          unfold delay in *; lra.
      * destruct (Qle_bool 0 d) eqn:H0; [|discriminate].
        apply Qle_bool_iff in H0.
        apply (IH pending (clock + d)%Q before b Hp); [|lra].
        intros Hpend. specialize (Hd Hpend). lra.
Qed.

Lemma paced_times_separated ev b clock :
  pace false ev = Some b -> separated (fetch_times clock ev).
Proof.
  intros Hp.
  apply (pace_separated ev false clock (clock - delay)%Q b Hp);
    unfold delay; intros; lra.
Qed.

(** Between the first and the last of the separated times
    [first :: l] lie at least [length l] delays. *)
Lemma separated_span l :
  forall first x,
    separated (first :: l) ->
    last (first :: l) = Some x ->
    (first + inject_Z (Z.of_nat (length l)) * delay <= x)%Q.
Proof.
  induction l as [|a t IH]; intros first x Hs Hl.
  - injection Hl as <-.
    change (inject_Z (Z.of_nat (length (@nil Q)))) with 0%Q. lra.
  - destruct Hs as [Ha Ht]. rewrite last_cons_cons in Hl.
    specialize (IH a x Ht Hl).
    assert (Hn : (inject_Z (Z.of_nat (length (a :: t)))
                  == inject_Z (Z.of_nat (length t)) + 1)%Q).
    { simpl length. rewrite Nat2Z.inj_succ. unfold Z.succ.
      rewrite inject_Z_plus. reflexivity. }
    unfold delay in *. lra.
Qed.

Section Pace.
Context `{R : Runtime} `{W : World}.

(** The events of one file: the fetch, and the sleep when the
    processing of the file comes to its end. *)
Lemma scan_file_trace repo_name patterns env_file st :
  trace (snd (scan_file repo_name patterns env_file st))
  = trace st
    ++ EGet (fetch_request st (content_url env_file))
       :: match fst (scan_file repo_name patterns env_file st) with
          | Ret _ => [ESleep delay]
          | Raise _ => []
          end.
Proof.
  rewrite scan_file_run, get_file_content_run. cbv zeta.
  change (fetch_request (logged ("  Checking: " ++ path env_file) st)
            (content_url env_file))
    with (fetch_request st (content_url env_file)).
  assert (Hsleep : forall s,
    trace s = trace st ++ [EGet (fetch_request st (content_url env_file))] ->
    (if truthy "" then
       match apply_regex_patterns "" patterns s with
       | (Ret [], st2) => (Ret tt, slept delay st2)
       | (Ret (m :: ms), st2) =>
           (Ret tt,
            slept delay
              (logged ("    Found " ++ pretty (length (m :: ms))
                       ++ " matches!")
                 (recorded (finding_of repo_name env_file (m :: ms)) st2)))
       | (Raise e, st2) => (Raise e, st2)
       end
     else (Ret tt, slept delay s))
    = (Ret tt, slept delay s)) by reflexivity.
  assert (Hgo : forall content s,
    trace s = trace st ++ [EGet (fetch_request st (content_url env_file))] ->
    let r :=
      if truthy content then
        match apply_regex_patterns content patterns s with
        | (Ret [], st2) => (Ret tt, slept delay st2)
        | (Ret (m :: ms), st2) =>
            (Ret tt,
             slept delay
               (logged ("    Found " ++ pretty (length (m :: ms))
                        ++ " matches!")
                  (recorded (finding_of repo_name env_file (m :: ms)) st2)))
        | (Raise e, st2) => (Raise e, st2)
        end
      else (Ret tt, slept delay s) in
    trace (snd r)
    = trace st
      ++ EGet (fetch_request st (content_url env_file))
         :: match fst r with Ret _ => [ESleep delay] | Raise _ => [] end).
  { intros content s Hs. cbv zeta.
    destruct (truthy content).
    - unfold apply_regex_patterns.
      destruct (apply_patterns_from_state content patterns [] s)
        as [lines Hl].
      destruct (apply_patterns_from content patterns [] s)
        as [[[|m ms]|e] st2]; simpl in Hl; subst st2; simpl;
        rewrite Hs, <- ?app_assoc; reflexivity.
    - simpl. rewrite Hs, <- app_assoc. reflexivity. }
  destruct (requests_get _ _) as [[f msg]|resp].
  - apply Hgo. reflexivity.
  - destruct (decode_content resp) as [content|e].
    + apply Hgo. reflexivity.
    + destruct (issubclass (exn_cls e) RequestException).
      * apply Hgo. reflexivity.
      * reflexivity.
Qed.

Lemma paced_quiet t0 b : ignores_searches (paced t0 b).
Proof.
  split.
  - intros st o H. exact H.
  - intros st req Hq (ev & Ht & Hp). exists (ev ++ [EGet req]). split.
    + simpl. rewrite Ht, app_assoc. reflexivity.
    + rewrite pace_app, Hp. simpl.
      destruct (params req); [contradiction | reflexivity].
Qed.

Lemma scan_file_paced t0 repo_name patterns env_file :
  hoare (paced t0 false) (scan_file repo_name patterns env_file)
    (fun _ => paced t0 false) (fun _ st => exists b, paced t0 b st).
Proof.
  intros st (ev & Ht & Hp).
  pose proof (scan_file_trace repo_name patterns env_file st) as Htr.
  destruct (scan_file repo_name patterns env_file st) as [[[]|e] st'];
    simpl in Htr.
  - exists (ev ++ [EGet (fetch_request st (content_url env_file));
                   ESleep delay]).
    split; [rewrite Htr, Ht, app_assoc; reflexivity|].
    rewrite pace_app, Hp. reflexivity.
  - exists true, (ev ++ [EGet (fetch_request st (content_url env_file))]).
    split; [rewrite Htr, Ht, app_assoc; reflexivity|].
    rewrite pace_app, Hp. reflexivity.
Qed.

(** A run keeps the pace, however it ends. *)
Lemma scrape_paced repos patterns search_query max_repos st :
  exists ev b,
    trace (snd (scrape repos patterns search_query max_repos st))
    = trace st ++ ev
    /\ pace false ev = Some b.
Proof.
  assert (H0 : paced (trace st) false st)
    by (exists []; split; [now rewrite app_nil_r | reflexivity]).
  pose proof (scrape_with (paced (trace st) false)
                (fun _ s => exists b, paced (trace st) b s)
                (paced_quiet _ _) (fun _ _ H => H)
                (fun _ s H => ex_intro _ false H)
                (scan_file_paced (trace st))
                repos patterns search_query max_repos st H0) as H.
  destruct (scrape _ _ _ _ st) as [[[]|e] st']; simpl.
  - destruct H as (ev & Ht & Hp). eauto.
  - destruct H as (b & ev & Ht & Hp). eauto.
Qed.

End Pace.

Lemma scan_file_returns `{R : Runtime} `{W : World}
    repo_name patterns env_file st content st1 ms :
  get_file_content (content_url env_file)
    (logged ("  Checking: " ++ path env_file)%string st) = (Ret content, st1) ->
  fst (apply_regex_patterns content patterns st1) = Ret ms ->
  fst (scan_file repo_name patterns env_file st) = Ret tt.
Proof.
  intros Hg Ha. rewrite scan_file_run, Hg.
  destruct (truthy content); [|reflexivity].
  destruct (apply_regex_patterns content patterns st1) as [[[|m ms']|e] st2];
    simpl in Ha; [reflexivity | reflexivity | discriminate].
Qed.

(** A run over two repositories of two files each: four fetches, the
    last one three delays after the first. *)
Example four_fetches_three_delays :
  let W := serving ["x/y"] [".env"; "config/.env"] "QT0x" in
  let st := snd (scrape 0%nat ["a=(.)"] (Some "q") 5 (start ["a/b"])) in
  map Qred (fetch_times 0 (trace st)) = [0; 1 # 2; 1; 3 # 2]%Q.
Proof. vm_compute. reflexivity. Qed.

(** ** The two searches of the Remote Content Client *)

Section Searches.
Context `{W : World}.

(** What a repository search does, case by case. *)
Lemma search_repos_run query max_repos st :
  search_repos query max_repos st =
  let req := search_request st query max_repos in
  match requests_get (trace st) req with
  | inl (f, msg) =>
      (Ret [], logged ("Error searching repositories: " ++ msg)%string
                 (sent req st))
  | inr resp =>
      match search_repos_items resp max_repos with
      | (repos, None) => (Ret repos, sent req st)
      | (repos, Some e) =>
          if issubclass (exn_cls e) RequestException
          then (Ret repos,
                logged ("Error searching repositories: " ++ exn_str e)%string
                  (sent req st))
          else (Raise e, sent req st)
      end
  end.
Proof.
  unfold search_repos, bind, get_self, get, search_request. cbv zeta.
  destruct (requests_get _ _) as [[f msg]|resp].
  - unfold except_RequestException. simpl.
    rewrite failure_class_caught. reflexivity.
  - destruct (search_repos_items resp max_repos) as [repos [e|]];
      [|reflexivity].
    unfold except_RequestException.
    destruct (issubclass (exn_cls e) RequestException); reflexivity.
Qed.

(** What a search for candidate files does, case by case. *)
Lemma find_env_files_run repo_name st :
  find_env_files repo_name st =
  let req := code_search_request st repo_name in
  let what := ("Error finding .env files in " ++ repo_name ++ ": ")%string in
  match requests_get (trace st) req with
  | inl (f, msg) => (Ret [], logged (what ++ msg)%string (sent req st))
  | inr resp =>
      match find_env_files_items resp with
      | (env_files, None) => (Ret env_files, sent req st)
      | (env_files, Some e) =>
          if issubclass (exn_cls e) RequestException
          then (Ret env_files, logged (what ++ exn_str e)%string (sent req st))
          else (Raise e, sent req st)
      end
  end.
Proof.
  unfold find_env_files, bind, get_self, get, code_search_request. cbv zeta.
  destruct (requests_get _ _) as [[f msg]|resp].
  - unfold except_RequestException. simpl.
    rewrite failure_class_caught. reflexivity.
  - destruct (find_env_files_items resp) as [env_files [e|]];
      [|reflexivity].
    unfold except_RequestException.
    destruct (issubclass (exn_cls e) RequestException); reflexivity.
Qed.

(** The loop over the items stops at the first item that raises. *)
Lemma collect_app {X Y} (f : X -> result Y) l1 :
  forall l2 acc,
    collect (l1 ++ l2) f acc =
    match collect l1 f acc with
    | (acc', None) => collect l2 f acc'
    | (acc', Some e) => (acc', Some e)
    end.
Proof.
  induction l1 as [|x t IH]; intros l2 acc; [reflexivity|].
  simpl. destruct (f x); [apply IH | reflexivity].
Qed.

Lemma collect_all {X Y} (f : X -> result Y) l :
  forall acc ys,
    Forall2 (fun x y => f x = Ret y) l ys ->
    collect l f acc = (acc ++ ys, None).
Proof.
  induction l as [|x t IH]; intros acc ys H.
  - apply Forall2_nil_inv_l in H. subst. simpl. now rewrite app_nil_r.
  - apply Forall2_cons_inv_l in H. destruct H as (y & ys' & Hy & Ht & ->).
    simpl. rewrite Hy. rewrite (IH _ ys' Ht), <- app_assoc. reflexivity.
Qed.

Lemma collect_length {X Y} (f : X -> result Y) l :
  forall acc, length (fst (collect l f acc)) <= length acc + length l.
Proof.
  induction l as [|x t IH]; intros acc; simpl; [lia|].
  destruct (f x) as [y|e]; simpl; [|lia].
  specialize (IH (acc ++ [y])). rewrite length_app in IH. simpl in IH. lia.
Qed.

(** An HTTP error status and a body that is not JSON raise exceptions of
    [requests]. *)
Lemma rejected_response resp :
  ((400 <=? status_code resp) && (status_code resp <? 600))%Z = true
  \/ (exists msg, body resp = inl msg) ->
  exists e,
    rbind (raise_for_status resp) (fun _ => response_json resp) = Raise e
    /\ issubclass (exn_cls e) RequestException = true.
Proof.
  unfold raise_for_status, response_json. intros [Hs|[msg Hb]].
  - destruct ((400 <=? status_code resp) && (status_code resp <? 500))%Z eqn:H4;
      [eexists; split; reflexivity|].
    destruct ((500 <=? status_code resp) && (status_code resp <? 600))%Z eqn:H5;
      [eexists; split; reflexivity|]. exfalso.
    apply andb_prop in Hs. destruct Hs as [Ha Hb].
    rewrite Ha in H4. simpl in H4.
    apply Z.ltb_ge in H4. apply Z.leb_le in H4. rewrite H4 in H5.
    simpl in H5. congruence.
  - rewrite Hb.
    destruct ((400 <=? status_code resp) && (status_code resp <? 500))%Z;
      [eexists; split; reflexivity|].
    destruct ((500 <=? status_code resp) && (status_code resp <? 600))%Z;
      eexists; split; reflexivity.
Qed.

(** The item accesses never raise an exception of [requests]. *)
Lemma getitem_not_caught v k e :
  Json.getitem v k = Raise e ->
  issubclass (exn_cls e) RequestException = false.
Proof.
  destruct v as [| | | |l|kv]; simpl; try (intros H; injection H as <-; reflexivity).
  destruct (Json.assoc k kv); [discriminate|].
  intros H; injection H as <-; reflexivity.
Qed.

Lemma expect_str_not_caught v e :
  Json.expect_str v = Raise e ->
  issubclass (exn_cls e) RequestException = false.
Proof.
  destruct v; simpl; try discriminate; intros H; injection H as <-; reflexivity.
Qed.

Lemma repo_entry_not_caught it e :
  repo_entry it = Raise e -> issubclass (exn_cls e) RequestException = false.
Proof.
  unfold repo_entry, rbind. intros H.
  destruct (Json.getitem it "full_name") as [n|e1] eqn:H1;
    [|injection H as <-; eapply getitem_not_caught; eauto].
  destruct (Json.getitem it "html_url") as [u|e2] eqn:H2;
    [|injection H as <-; eapply getitem_not_caught; eauto].
  destruct (Json.getitem it "stargazers_count") as [c|e3] eqn:H3;
    [|injection H as <-; eapply getitem_not_caught; eauto].
  destruct (Json.expect_str n) as [n'|e4] eqn:H4; [discriminate|].
  injection H as <-. eapply expect_str_not_caught; eauto.
Qed.

Lemma env_file_entry_not_caught it e :
  env_file_entry it = Raise e ->
  issubclass (exn_cls e) RequestException = false.
Proof.
  unfold env_file_entry, rbind. intros H.
  destruct (Json.getitem it "path") as [p|e1] eqn:H1;
    [|injection H as <-; eapply getitem_not_caught; eauto].
  destruct (Json.getitem it "url") as [u|e2] eqn:H2;
    [|injection H as <-; eapply getitem_not_caught; eauto].
  destruct (Json.getitem it "html_url") as [h|e3] eqn:H3;
    [|injection H as <-; eapply getitem_not_caught; eauto].
  destruct (Json.expect_str p) as [p'|e4] eqn:H4;
    [|injection H as <-; eapply expect_str_not_caught; eauto].
  destruct (Json.expect_str u) as [u'|e5] eqn:H5;
    [|injection H as <-; eapply expect_str_not_caught; eauto].
  destruct (Json.expect_str h) as [h'|e6] eqn:H6; [discriminate|].
  injection H as <-. eapply expect_str_not_caught; eauto.
Qed.

End Searches.

Section SearchProperties.
Context `{W : World}.

Lemma rejected_search_items resp max_repos :
  ((400 <=? status_code resp) && (status_code resp <? 600))%Z = true
  \/ (exists msg, body resp = inl msg) ->
  exists e,
    issubclass (exn_cls e) RequestException = true
    /\ search_repos_items resp max_repos = ([], Some e)
    /\ find_env_files_items resp = ([], Some e).
Proof.
  intros H. destruct (rejected_response resp H) as (e & He & Hc).
  exists e. split; [exact Hc|].
  unfold search_repos_items, find_env_files_items, rbind in *.
  destruct (raise_for_status resp) as [[]|e1].
  - destruct (response_json resp) as [data|e2]; [discriminate|].
    injection He as ->. split; reflexivity.
  - injection He as ->. split; reflexivity.
Qed.

Lemma listed_search_items resp items max_repos :
  lists_items resp items ->
  search_repos_items resp max_repos
  = collect (take (Json.slice_stop (length items) max_repos) items)
            repo_entry []
  /\ find_env_files_items resp = collect items env_file_entry [].
Proof.
  intros (Hs & kv & Hb & Hi).
  unfold search_repos_items, find_env_files_items, response_json, rbind.
  rewrite Hs, Hb. simpl. rewrite Hi. simpl. split; reflexivity.
Qed.

(** X1: a search that fails on the way (the request raises, the status
    is an error, the body is not JSON) returns the empty list: the
    failure is printed in one line, one request was sent, and nothing is
    raised. This holds for the repository search and for the search for
    candidate files. *)
Theorem failed_search_returns_nothing :
  forall query max_repos repo_name st,
    (match requests_get (trace st) (search_request st query max_repos) with
     | inl _ => True
     | inr resp =>
         ((400 <=? status_code resp) && (status_code resp <? 600))%Z = true
         \/ (exists msg, body resp = inl msg)
     end ->
     exists msg,
       search_repos query max_repos st
       = (Ret [],
          logged ("Error searching repositories: " ++ msg)%string
            (sent (search_request st query max_repos) st)))
    /\ (match requests_get (trace st) (code_search_request st repo_name) with
        | inl _ => True
        | inr resp =>
            ((400 <=? status_code resp) && (status_code resp <? 600))%Z = true
            \/ (exists msg, body resp = inl msg)
        end ->
        exists msg,
          find_env_files repo_name st
          = (Ret [],
             logged (("Error finding .env files in " ++ repo_name ++ ": ")
                     ++ msg)%string
               (sent (code_search_request st repo_name) st))).
Proof.
  intros query max_repos repo_name st. split; intros H.
  - rewrite search_repos_run. cbv zeta.
    destruct (requests_get _ _) as [[f msg]|resp]; [eauto|].
    destruct (rejected_search_items resp max_repos H) as (e & Hc & -> & _).
    rewrite Hc. eauto.
  - rewrite find_env_files_run. cbv zeta.
    destruct (requests_get _ _) as [[f msg]|resp].
    + eauto.
    + destruct (rejected_search_items resp 0 H) as (e & Hc & _ & ->).
      rewrite Hc. eauto.
Qed.

End SearchProperties.

Lemma failed_search_returns_nothing_witness :
  let W := {| requests_get := fun _ _ =>
                inr {| status_code := 403; reason := "rate limit exceeded";
                       resp_url := "https://api.github.com/search";
                       body := inr (JObj []) |};
              datetime_now := fun _ => noon;
              open_fails := fun _ => None |} in
  let st := start [] in
  (exists msg,
     search_repos "stars:>10" 5 st
     = (Ret [],
        logged ("Error searching repositories: " ++ msg)%string
          (sent (search_request st "stars:>10" 5) st)))
  /\ (exists msg,
        find_env_files "a/b" st
        = (Ret [],
           logged (("Error finding .env files in " ++ "a/b" ++ ": ")
                   ++ msg)%string
             (sent (code_search_request st "a/b") st))).
Proof.
  intros W st.
  destruct (failed_search_returns_nothing (W := W) "stars:>10" 5 "a/b" st)
    as [H1 H2].
  split; [apply H1 | apply H2]; left; reflexivity.
Defined.

(** X2: on a response that lists items, the repository search reads the
    items of the slice [[:max_repos]] only, in the order of the response,
    and returns one entry for each: at most [max_repos] entries when
    [max_repos] is not negative (a negative one drops items from the end
    instead), and never more than the response holds. Nothing is printed;
    items beyond the slice are not looked at. *)
Theorem search_repos_returns_first_items :
  forall `{W : World} query max_repos st resp items repos,
    requests_get (trace st) (search_request st query max_repos) = inr resp ->
    lists_items resp items ->
    Forall2 (fun it info => repo_entry it = Ret info)
      (take (Json.slice_stop (length items) max_repos) items) repos ->
    search_repos query max_repos st
    = (Ret repos, sent (search_request st query max_repos) st)
    /\ length repos = Json.slice_stop (length items) max_repos
    /\ (0 <= max_repos -> Z.of_nat (length repos) <= max_repos)%Z
    /\ length repos <= length items.
Proof.
  intros W query max_repos st resp items repos Hg Hl Hf.
  rewrite search_repos_run. cbv zeta. rewrite Hg.
  destruct (listed_search_items resp items max_repos Hl) as [-> _].
  rewrite (collect_all _ _ [] repos Hf). simpl.
  split; [reflexivity|].
  assert (Hlen : length repos = Json.slice_stop (length items) max_repos).
  { apply Forall2_length in Hf. rewrite <- Hf, length_take.
    unfold Json.slice_stop.
    destruct (0 <=? max_repos)%Z eqn:H0; [lia|].
    apply Z.leb_gt in H0. lia. }
  split; [exact Hlen|]. rewrite Hlen. unfold Json.slice_stop.
  split.
  - intros H0. apply Z.leb_le in H0. rewrite H0. lia.
  - destruct (0 <=? max_repos)%Z eqn:H0; [lia|].
    apply Z.leb_gt in H0. lia.
Qed.

Lemma search_repos_returns_first_items_witness :
  let W := serving ["a/b"; "c/d"; "e/f"] [] "" in
  let st := start [] in
  let entry n := {| name := n; repo_url := JStr ("https://github.com/" ++ n);
                    stars := JNum 7 |} in
  search_repos "stars:>10" 2 st
  = (Ret [entry "a/b"; entry "c/d"], sent (search_request st "stars:>10" 2) st)
  /\ length [entry "a/b"; entry "c/d"]
     = Json.slice_stop (length (map a_repo ["a/b"; "c/d"; "e/f"])) 2
  /\ (0 <= 2 -> Z.of_nat (length [entry "a/b"; entry "c/d"]) <= 2)%Z
  /\ length [entry "a/b"; entry "c/d"]
     <= length (map a_repo ["a/b"; "c/d"; "e/f"]).
Proof.
  intros W st entry.
  apply (search_repos_returns_first_items (W := W) "stars:>10" 2 st
           {| status_code := 200; reason := "OK"; resp_url := "";
              body := inr (JObj [("items",
                                  JArr (map a_repo ["a/b"; "c/d"; "e/f"]))]) |}
           (map a_repo ["a/b"; "c/d"; "e/f"])).
  - reflexivity.
  - split; [reflexivity|]. eexists. split; reflexivity.
  - repeat constructor.
Defined.

(** X3: on a response that lists items, the search for candidate files
    returns one entry for each item, in the order of the response, and
    prints nothing. *)
Theorem find_env_files_returns_every_item :
  forall `{W : World} repo_name st resp items env_files,
    requests_get (trace st) (code_search_request st repo_name) = inr resp ->
    lists_items resp items ->
    Forall2 (fun it info => env_file_entry it = Ret info) items env_files ->
    find_env_files repo_name st
    = (Ret env_files, sent (code_search_request st repo_name) st)
    /\ length env_files = length items.
Proof.
  intros W repo_name st resp items env_files Hg Hl Hf.
  rewrite find_env_files_run. cbv zeta. rewrite Hg.
  destruct (listed_search_items resp items 0 Hl) as [_ ->].
  rewrite (collect_all _ _ [] env_files Hf). simpl.
  split; [reflexivity|]. symmetry. eapply Forall2_length, Hf.
Qed.

Lemma find_env_files_returns_every_item_witness :
  let W := serving [] [".env"; "config/.env"] "" in
  let st := start [] in
  let entry p :=
    {| path := p;
       content_url := ("https://api.github.com/contents/" ++ p)%string;
       html_url := ("https://github.com/a/b/blob/main/" ++ p)%string |} in
  find_env_files "a/b" st
  = (Ret [entry ".env"; entry "config/.env"],
     sent (code_search_request st "a/b") st)
  /\ length [entry ".env"; entry "config/.env"]
     = length (map file [".env"; "config/.env"]).
Proof.
  intros W st entry.
  apply (find_env_files_returns_every_item (W := W) "a/b" st
           {| status_code := 200; reason := "OK"; resp_url := "";
              body := inr (JObj [("items",
                                  JArr (map file [".env"; "config/.env"]))]) |}
           (map file [".env"; "config/.env"])).
  - reflexivity.
  - split; [reflexivity|]. eexists. split; reflexivity.
  - repeat constructor.
Defined.

(** X4: a JSON object without the key [items] is read as an empty
    result by both searches: the empty list, nothing printed, nothing
    raised. *)
Theorem missing_items_is_no_result :
  forall `{W : World} query max_repos repo_name st,
    let listless resp :=
      raise_for_status resp = Ret tt
      /\ exists kv, body resp = inr (JObj kv) /\ Json.assoc "items" kv = None in
    (forall resp,
       requests_get (trace st) (search_request st query max_repos) = inr resp ->
       listless resp ->
       search_repos query max_repos st
       = (Ret [], sent (search_request st query max_repos) st))
    /\ (forall resp,
          requests_get (trace st) (code_search_request st repo_name)
          = inr resp ->
          listless resp ->
          find_env_files repo_name st
          = (Ret [], sent (code_search_request st repo_name) st)).
Proof.
  intros W query max_repos repo_name st listless.
  split; intros resp Hg (Hs & kv & Hb & Hi).
  - rewrite search_repos_run. cbv zeta. rewrite Hg.
    unfold search_repos_items, response_json, rbind. rewrite Hs, Hb.
    simpl. rewrite Hi. simpl. rewrite take_nil. reflexivity.
  - rewrite find_env_files_run. cbv zeta. rewrite Hg.
    unfold find_env_files_items, response_json, rbind. rewrite Hs, Hb.
    simpl. rewrite Hi. reflexivity.
Qed.

Lemma missing_items_is_no_result_witness :
  let W := {| requests_get := fun _ _ =>
                inr {| status_code := 200; reason := "OK"; resp_url := "";
                       body := inr (JObj [("total_count", JNum 0)]) |};
              datetime_now := fun _ => noon;
              open_fails := fun _ => None |} in
  let st := start [] in
  search_repos "q" 5 st = (Ret [], sent (search_request st "q" 5) st)
  /\ find_env_files "a/b" st
     = (Ret [], sent (code_search_request st "a/b") st).
Proof.
  intros W st.
  destruct (missing_items_is_no_result (W := W) "q" 5 "a/b" st) as [H1 H2].
  split.
  - eapply H1; [reflexivity|]. split; [reflexivity|].
    eexists. split; reflexivity.
  - eapply H2; [reflexivity|]. split; [reflexivity|].
    eexists. split; reflexivity.
Defined.

(** X5: an item that cannot be read (a missing key, a value that is not
    an object) ends the search for candidate files with the exception of
    the item access, which is not an exception of [requests]: the entries
    read before it are lost, nothing is printed, and the scan of the
    repository ends with the same exception. *)
Theorem unreadable_item_ends_the_scan :
  forall `{R : Runtime} `{W : World} patterns repo_name st resp good bad rest
         read e,
    requests_get (trace st) (code_search_request st repo_name) = inr resp ->
    lists_items resp (good ++ bad :: rest) ->
    Forall2 (fun it info => env_file_entry it = Ret info) good read ->
    env_file_entry bad = Raise e ->
    issubclass (exn_cls e) RequestException = false
    /\ find_env_files repo_name st
       = (Raise e, sent (code_search_request st repo_name) st)
    /\ fst (scan_repo patterns repo_name st) = Raise e.
Proof.
  intros R W patterns repo_name st resp good bad rest read e Hg Hl Hf Hb.
  pose proof (env_file_entry_not_caught bad e Hb) as Hc.
  assert (Hrun : forall s, trace s = trace st -> self s = self st ->
            find_env_files repo_name s
            = (Raise e, sent (code_search_request st repo_name) s)).
  { intros s Ht Hs. rewrite find_env_files_run. cbv zeta.
    unfold code_search_request. rewrite Ht, Hs.
    fold (code_search_request st repo_name). rewrite Hg.
    destruct (listed_search_items resp _ 0 Hl) as [_ ->].
    rewrite collect_app, (collect_all _ _ [] read Hf). simpl.
    rewrite Hb, Hc. reflexivity. }
  split; [exact Hc | split].
  - apply Hrun; reflexivity.
  - unfold scan_repo, bind, print.
    rewrite (Hrun (set_stdout _ st)); reflexivity.
Qed.

Lemma unreadable_item_ends_the_scan_witness :
  let pathless := JObj [("url", JStr "u"); ("html_url", JStr "h")] in
  let W := {| requests_get := fun _ _ =>
                inr {| status_code := 200; reason := "OK"; resp_url := "";
                       body := inr (JObj [("items",
                                 JArr [file ".env"; pathless])]) |};
              datetime_now := fun _ => noon;
              open_fails := fun _ => None |} in
  let st := start [] in
  let e := mk_exn KeyError_ "'path'" in
  issubclass (exn_cls e) RequestException = false
  /\ find_env_files "a/b" st
     = (Raise e, sent (code_search_request st "a/b") st)
  /\ fst (scan_repo ["(x)"] "a/b" st) = Raise e.
Proof.
  intros pathless W st e.
  eapply (unreadable_item_ends_the_scan (R := cpython) (W := W) ["(x)"] "a/b"
            st _ [file ".env"] pathless []).
  - reflexivity.
  - split; [reflexivity|]. eexists. split; reflexivity.
  - repeat constructor.
  - reflexivity.
Defined.

(** ** Invariants of a run *)

Section Driver.
Context `{R : Runtime} `{W : World}.
Variable I : state -> Prop.
Variable E : exn -> state -> Prop.
Variable patterns : list string.
Hypothesis Hout : forall st o, I st -> I (set_stdout o st).
Hypothesis HH : forall st h, I st -> I (set_heap h st).
Hypothesis HE : forall e st, I st -> E e st.
Hypothesis Hsearch : forall st query max_repos,
  I st -> I (sent (search_request st query max_repos) st).
Hypothesis Hfind : forall st repo_name,
  I st -> I (sent (code_search_request st repo_name) st).
Hypothesis Hfile : forall repo_name env_file,
  hoare I (scan_file repo_name patterns env_file) (fun _ => I) E.

Lemma print_inv line : hoare I (print line) (fun _ => I) E.
Proof. intros st H. simpl. now apply Hout. Qed.

Lemma search_repos_inv query max_repos :
  hoare I (search_repos query max_repos) (fun _ => I) (fun _ => I).
Proof.
  intros st H. rewrite search_repos_run. cbv zeta.
  pose proof (Hsearch st query max_repos H) as Hs.
  destruct (requests_get _ _) as [[f msg]|resp]; [now apply Hout|].
  destruct (search_repos_items resp max_repos) as [repos [e|]]; [|exact Hs].
  destruct (issubclass _ _); [now apply Hout | exact Hs].
Qed.

Lemma find_env_files_inv repo_name :
  hoare I (find_env_files repo_name) (fun _ => I) E.
Proof.
  intros st H. rewrite find_env_files_run. cbv zeta.
  pose proof (Hfind st repo_name H) as Hs.
  destruct (requests_get _ _) as [[f msg]|resp]; [now apply Hout|].
  destruct (find_env_files_items resp) as [env_files [e|]]; [|exact Hs].
  destruct (issubclass _ _); [now apply Hout | now apply HE].
Qed.

Lemma scan_repo_inv repo_name :
  hoare I (scan_repo patterns repo_name) (fun _ => I) E.
Proof.
  unfold scan_repo.
  eapply hoare_bind; [apply print_inv|]. intros [].
  eapply hoare_bind; [apply find_env_files_inv|].
  intros [|f fs]; [apply print_inv|].
  eapply hoare_bind; [apply print_inv|].
  intros []. apply hoare_for_each. intros x _. apply Hfile.
Qed.

Lemma resolve_inv repos search_query max_repos :
  hoare I (resolve repos search_query max_repos) (fun _ => I) (fun _ => I).
Proof.
  unfold resolve, list_copy.
  eapply hoare_bind.
  { eapply hoare_bind; [apply (read_list_keeps I)|].
    intros l. apply (new_list_keeps I HH). }
  intros all_repos. eapply hoare_bind with (Q := fun _ => I).
  { destruct search_query as [q|]; [|apply hoare_ret; auto].
    destruct (truthy q); [|apply hoare_ret; auto].
    eapply hoare_bind with (Q := fun _ => I).
    { intros st H. simpl. now apply Hout. }
    intros []. eapply hoare_bind; [apply search_repos_inv|].
    intros sr. apply (list_extend_keeps I HH). }
  intros []. eapply hoare_bind; [apply (read_list_keeps I)|].
  intros l. apply (new_list_keeps I HH).
Qed.

Lemma scrape_inv repos search_query max_repos :
  hoare I (scrape repos patterns search_query max_repos) (fun _ => I) E.
Proof.
  unfold scrape.
  eapply hoare_bind with (Q := fun _ => I).
  { eapply hoare_conseq; [apply resolve_inv | auto | auto | exact HE]. }
  intros all_repos. eapply hoare_bind with (Q := fun _ => I).
  { eapply hoare_conseq; [apply (read_list_keeps I) | auto | auto | exact HE]. }
  intros l. eapply hoare_bind; [apply print_inv|].
  intros []. apply hoare_for_each. intros x _. apply scan_repo_inv.
Qed.

End Driver.

Section FileEffects.
Context `{R : Runtime} `{W : World}.

Lemma rule_matches_label content p pm :
  pm ∈ rule_matches content p -> fst pm = p.
Proof.
  unfold rule_matches. destruct (re_compile p flags_of_scan) as [regex|e].
  - intros H. apply list_elem_of_In, in_map_iff in H.
    destruct H as (m & <- & _). reflexivity.
  - intros H. inversion H.
Qed.

Lemma evaluation_labels content patterns st ms :
  fst (apply_regex_patterns content patterns st) = Ret ms ->
  forall pm, pm ∈ ms -> fst pm ∈ patterns.
Proof.
  intros H pm Hpm. apply apply_regex_patterns_in_rule_order in H.
  simpl in H. subst ms.
  apply list_elem_of_In, in_concat in Hpm. destruct Hpm as (l & Hl & Hin).
  apply in_map_iff in Hl. destruct Hl as (p & <- & Hp).
  apply list_elem_of_In in Hin. rewrite (rule_matches_label _ _ _ Hin).
  now apply list_elem_of_In.
Qed.

(** X6: a content fetch sends exactly one request, to the URL it is
    given, with the headers of the scraper and without parameters,
    whatever the outcome: nothing is retried. It prints one line when it
    turns a failure into the empty string and nothing otherwise, and it
    changes nothing else. *)
Theorem get_file_content_sends_one_request :
  forall `{W : World} file_url st,
    exists lines,
      snd (get_file_content file_url st)
      = set_stdout (stdout st ++ lines) (sent (fetch_request st file_url) st)
      /\ length lines <= 1
      /\ match fst (get_file_content file_url st) with
         | Ret content => truthy content = true -> lines = []
         | Raise _ => lines = []
         end.
Proof.
  intros W' file_url st. rewrite get_file_content_run. cbv zeta.
  assert (Hsame : set_stdout (stdout st ++ [])
                    (sent (fetch_request st file_url) st)
                  = sent (fetch_request st file_url) st).
  { unfold sent. simpl. rewrite app_nil_r. reflexivity. }
  destruct (requests_get _ _) as [[f msg]|resp].
  - eexists [_]. split; [reflexivity|]. simpl. split; [lia | discriminate].
  - destruct (decode_content resp) as [content|e].
    + exists []. simpl. rewrite Hsame. split; [reflexivity|]. split; [lia|auto].
    + destruct (issubclass (exn_cls e) RequestException).
      * eexists [_]. split; [reflexivity|]. simpl.
        split; [lia | discriminate].
      * exists []. simpl. rewrite Hsame. split; [reflexivity|].
        split; [lia | reflexivity].
Qed.

(** What the scan of one file does to the results: it appends at most
    one finding, which comes from the file, has a match, and whose
    matches are labelled with rules. *)
Lemma scan_file_results repo_name patterns env_file st :
  exists new,
    results (self (snd (scan_file repo_name patterns env_file st)))
    = results (self st) ++ new
    /\ length new <= 1
    /\ Forall (well_formed_finding patterns) new
    /\ Forall (found_in repo_name env_file) new.
Proof.
  assert (Hk : ignores_output (fun s => results (self s) = results (self st)))
    by (split; intros; assumption).
  pose proof (get_file_content_keeps _ Hk (content_url env_file)
                (logged ("  Checking: " ++ path env_file)%string st) eq_refl)
    as H1.
  assert (Hnone : exists new : list finding,
            results (self st) = results (self st) ++ new
            /\ length new <= 1
            /\ Forall (well_formed_finding patterns) new
            /\ Forall (found_in repo_name env_file) new).
  { exists []. rewrite app_nil_r. simpl. repeat split; auto; lia. }
  rewrite scan_file_run.
  destruct (get_file_content _ _) as [[content|e] st1];
    [|simpl; rewrite H1; exact Hnone].
  destruct (truthy content); [|simpl; rewrite H1; exact Hnone].
  assert (Hk1 : ignores_output (fun s => results (self s) = results (self st1)))
    by (split; intros; assumption).
  pose proof (apply_regex_patterns_keeps _ (ignores_output_searches _ Hk1)
                content patterns st1 eq_refl) as H2.
  pose proof (evaluation_labels content patterns st1) as Hlab.
  destruct (apply_regex_patterns content patterns st1) as [[[|m ms]|e] st2];
    simpl in H2; try (simpl; rewrite H2, H1; exact Hnone).
  exists [finding_of repo_name env_file (m :: ms)]. simpl.
  rewrite H2, H1. split; [reflexivity|]. split; [lia|]. split.
  - constructor; [|constructor]. split; [discriminate|].
    simpl. apply (Hlab (m :: ms) eq_refl).
  - constructor; [|constructor]. repeat split.
Qed.

Lemma scan_file_config repo_name patterns env_file st :
  headers (self (snd (scan_file repo_name patterns env_file st)))
  = headers (self st)
  /\ base_url (self (snd (scan_file repo_name patterns env_file st)))
     = base_url (self st).
Proof.
  pose proof (scan_file_keeps
                (fun s => headers (self s) = headers (self st)
                          /\ base_url (self s) = base_url (self st))) as H.
  specialize (H ltac:(split; intros; assumption)
                ltac:(intros; assumption)
                repo_name patterns env_file st (conj eq_refl eq_refl)).
  destruct (scan_file _ _ _ st) as [[[]|e] st']; exact H.
Qed.

End FileEffects.

Lemma count_fetches_app ev1 ev2 :
  count_fetches (ev1 ++ ev2) = count_fetches ev1 + count_fetches ev2.
Proof. unfold count_fetches. now rewrite List.filter_app, length_app. Qed.

Lemma count_sleeps_app ev1 ev2 :
  count_sleeps (ev1 ++ ev2) = count_sleeps ev1 + count_sleeps ev2.
Proof. unfold count_sleeps. now rewrite List.filter_app, length_app. Qed.

(** X7: every request of a run carries the headers the scraper was
    built with: the header [Authorization: token t] when it was given a
    token [t] that is not empty, and no header otherwise. A run does not
    change the headers. *)
Theorem every_request_carries_the_headers :
  forall `{R : Runtime} `{W : World} token repos patterns search_query
         max_repos st,
    self st = init token ->
    let h := match token with
             | Some t => if truthy t
                         then [("Authorization", ("token " ++ t)%string)]
                         else []
             | None => []
             end in
    let st' := snd (scrape repos patterns search_query max_repos st) in
    headers (self st') = h
    /\ exists ev, trace st' = trace st ++ ev /\ Forall (carries h) ev.
Proof.
  intros R W token repos patterns search_query max_repos st Hs h st'.
  assert (Hh : headers (self st) = h) by (rewrite Hs; reflexivity).
  pose (I := fun s => headers (self s) = h
                      /\ exists ev, trace s = trace st ++ ev
                                    /\ Forall (carries h) ev).
  assert (Hsent : forall s req, req_headers req = h -> I s -> I (sent req s)).
  { intros s req Hr (H1 & ev & H2 & H3). split; [exact H1|].
    exists (ev ++ [EGet req]). split.
    - simpl. rewrite H2, app_assoc. reflexivity.
    - apply Forall_app. split; [exact H3|]. constructor; [exact Hr|constructor]. }
  assert (H : hoare I (scrape repos patterns search_query max_repos)
                (fun _ => I) (fun _ => I)).
  { apply scrape_inv.
    - intros s o Hi. exact Hi.
    - intros s hp Hi. exact Hi.
    - auto.
    - intros s q m Hi. apply Hsent; [apply Hi | exact Hi].
    - intros s r Hi. apply Hsent; [apply Hi | exact Hi].
    - intros r f s (H1 & ev & H2 & H3).
      pose proof (scan_file_trace r patterns f s) as Ht.
      pose proof (scan_file_config r patterns f s) as [Hc _].
      assert (HI : I (snd (scan_file r patterns f s))).
      { split; [congruence|]. eexists. split.
        - rewrite Ht, H2, <- app_assoc. reflexivity.
        - apply Forall_app. split; [exact H3|].
          constructor; [exact H1|].
          destruct (fst (scan_file r patterns f s));
            repeat constructor. }
      destruct (scan_file r patterns f s) as [[[]|e] s']; exact HI. }
  specialize (H st). unfold st'.
  assert (H0 : I st).
  { split; [exact Hh|]. exists []. split; [now rewrite app_nil_r|constructor]. }
  specialize (H H0).
  destruct (scrape _ _ _ _ st) as [[[]|e] s']; exact H.
Qed.

Lemma every_request_carries_the_headers_witness :
  let W := serving ["x/y"] [".env"] "QT0x" in
  let st := {| self := init (Some "ghp_abc"); heap := {[ 0%nat := ["a/b"] ]};
               stdout := []; trace := []; files := ∅ |} in
  let h := [("Authorization", "token ghp_abc")] in
  let st' := snd (scrape 0%nat ["a=(.)"] (Some "q") 5 st) in
  headers (self st') = h
  /\ exists ev, trace st' = trace st ++ ev /\ Forall (carries h) ev.
Proof.
  intros W st h st'.
  apply (every_request_carries_the_headers (R := cpython) (Some "ghp_abc")
           0%nat ["a=(.)"] (Some "q") 5 st).
  reflexivity.
Defined.

(** X8: every finding a run adds has at least one match, and each of
    its matches is labelled with one of the rules of the run. *)
Theorem added_findings_are_well_formed :
  forall `{R : Runtime} `{W : World} repos patterns search_query max_repos st,
    exists new,
      results (self (snd (scrape repos patterns search_query max_repos st)))
      = results (self st) ++ new
      /\ Forall (well_formed_finding patterns) new.
Proof.
  intros R W repos patterns search_query max_repos st.
  pose (I := fun s => exists new,
                 results (self s) = results (self st) ++ new
                 /\ Forall (well_formed_finding patterns) new).
  assert (H : hoare I (scrape repos patterns search_query max_repos)
                (fun _ => I) (fun _ => I)).
  { apply scrape_inv; try (intros; assumption).
    intros r f s (new & H1 & H2).
    destruct (scan_file_results r patterns f s) as (more & H3 & _ & H4 & _).
    assert (HI : I (snd (scan_file r patterns f s))).
    { exists (new ++ more). split.
      - rewrite H3, H1, app_assoc. reflexivity.
      - apply Forall_app. auto. }
    destruct (scan_file r patterns f s) as [[[]|e] s']; exact HI. }
  assert (H0 : I st) by (exists []; split; [now rewrite app_nil_r|constructor]).
  specialize (H st H0).
  destruct (scrape _ _ _ _ st) as [[[]|e] s']; exact H.
Qed.

(** X9: a run appends at most one finding for each content fetch. A run
    that comes to its end has slept once for each content fetch; a run
    that an exception ends has slept once for each fetch but possibly the
    last one. *)
Theorem one_sleep_and_one_finding_per_fetch :
  forall `{R : Runtime} `{W : World} repos patterns search_query max_repos st,
    let run := scrape repos patterns search_query max_repos st in
    exists ev new,
      trace (snd run) = trace st ++ ev
      /\ results (self (snd run)) = results (self st) ++ new
      /\ length new <= count_fetches ev
      /\ match fst run with
         | Ret _ => count_sleeps ev = count_fetches ev
         | Raise _ =>
             count_sleeps ev <= count_fetches ev
             /\ count_fetches ev <= S (count_sleeps ev)
         end.
Proof.
  intros R W repos patterns search_query max_repos st run.
  pose (J := fun (ok : bool) s => exists ev new,
                 trace s = trace st ++ ev
                 /\ results (self s) = results (self st) ++ new
                 /\ length new <= count_fetches ev
                 /\ if ok then count_sleeps ev = count_fetches ev
                    else count_sleeps ev <= count_fetches ev
                         /\ count_fetches ev <= S (count_sleeps ev)).
  assert (Hsent : forall s req, params req <> [] -> J true s ->
                    J true (sent req s)).
  { intros s req Hp (ev & new & H1 & H2 & H3 & H4).
    exists (ev ++ [EGet req]), new.
    assert (Hf : count_fetches [EGet req] = 0)
      by (unfold count_fetches; simpl; destruct (params req);
          [contradiction | reflexivity]).
    assert (Hz : count_sleeps [EGet req] = 0) by reflexivity.
    rewrite count_fetches_app, count_sleeps_app, Hf, Hz.
    split; [simpl; rewrite H1, app_assoc; reflexivity|].
    split; [exact H2|]. split; lia. }
  assert (H : hoare (J true) (scrape repos patterns search_query max_repos)
                (fun _ => J true) (fun _ => J false)).
  { apply scrape_inv.
    - intros s o Hi. exact Hi.
    - intros s hp Hi. exact Hi.
    - intros e s (ev & new & H1 & H2 & H3 & H4).
      exists ev, new. repeat split; auto; lia.
    - intros s q m Hi. apply Hsent; [discriminate | exact Hi].
    - intros s r Hi. apply Hsent; [discriminate | exact Hi].
    - intros r f s (ev & new & H1 & H2 & H3 & H4).
      pose proof (scan_file_trace r patterns f s) as Ht.
      destruct (scan_file_results r patterns f s) as (more & Hr & Hl & _).
      destruct (scan_file r patterns f s) as [[[]|e] s']; simpl in *.
      + exists (ev ++ [EGet (fetch_request s (content_url f)); ESleep delay]),
               (new ++ more).
        rewrite count_fetches_app, count_sleeps_app, length_app.
        change (count_fetches [EGet (fetch_request s (content_url f));
                               ESleep delay]) with 1.
        change (count_sleeps [EGet (fetch_request s (content_url f));
                              ESleep delay]) with 1.
        split; [rewrite Ht, H1, <- app_assoc; reflexivity|].
        split; [rewrite Hr, H2, app_assoc; reflexivity|]. lia.
      + exists (ev ++ [EGet (fetch_request s (content_url f))]),
               (new ++ more).
        rewrite count_fetches_app, count_sleeps_app, length_app.
        change (count_fetches [EGet (fetch_request s (content_url f))])
          with 1.
        change (count_sleeps [EGet (fetch_request s (content_url f))])
          with 0.
        split; [rewrite Ht, H1, <- app_assoc; reflexivity|].
        split; [rewrite Hr, H2, app_assoc; reflexivity|]. lia. }
  assert (H0 : J true st).
  { exists [], []. rewrite !app_nil_r. repeat split; reflexivity. }
  specialize (H st H0). unfold run.
  destruct (scrape _ _ _ _ st) as [[[]|e] s']; exact H.
Qed.

Lemma find_env_files_state `{W : World} repo_name st :
  exists lines,
    snd (find_env_files repo_name st)
    = set_stdout (stdout st ++ lines)
        (sent (code_search_request st repo_name) st).
Proof.
  rewrite find_env_files_run. cbv zeta.
  assert (Hsame : set_stdout (stdout st ++ [])
                    (sent (code_search_request st repo_name) st)
                  = sent (code_search_request st repo_name) st).
  { unfold sent. simpl. rewrite app_nil_r. reflexivity. }
  destruct (requests_get _ _) as [[f msg]|resp]; [eexists [_]; reflexivity|].
  destruct (find_env_files_items resp) as [env_files [e|]];
    [|exists []; simpl; now rewrite Hsame].
  destruct (issubclass _ _); [eexists [_]; reflexivity|].
  exists []. simpl. now rewrite Hsame.
Qed.

(** X10: a repository for which the search returns no candidate file,
    because there is none or because the search failed, is skipped: the
    scan of the repository sends the one search request, fetches nothing,
    does not sleep, adds no finding, and ends with the line that says
    that no file was found. *)
Theorem repository_without_files_is_skipped :
  forall `{R : Runtime} `{W : World} patterns repo_name st,
    fst (find_env_files repo_name
           (logged (nl ++ "Scanning repository: " ++ repo_name)%string st))
    = Ret [] ->
    let st' := snd (scan_repo patterns repo_name st) in
    fst (scan_repo patterns repo_name st) = Ret tt
    /\ trace st' = trace st ++ [EGet (code_search_request st repo_name)]
    /\ results (self st') = results (self st)
    /\ last (stdout st') = Some "  No .env files found".
Proof.
  intros R W patterns repo_name st Hf st'. unfold st'.
  destruct (find_env_files_state repo_name
              (logged (nl ++ "Scanning repository: " ++ repo_name)%string st))
    as [lines Hs].
  unfold scan_repo, bind, print. unfold logged in *.
  destruct (find_env_files repo_name _) as [[env_files|e] st1];
    simpl in Hf; [|discriminate].
  injection Hf as ->. simpl in Hs. subst st1. simpl.
  repeat split. apply last_snoc.
Qed.

Lemma repository_without_files_is_skipped_witness :
  let W := serving [] [] "" in
  let st := start ["a/b"] in
  let st' := snd (scan_repo ["(x)"] "a/b" st) in
  fst (scan_repo ["(x)"] "a/b" st) = Ret tt
  /\ trace st' = trace st ++ [EGet (code_search_request st "a/b")]
  /\ results (self st') = results (self st)
  /\ last (stdout st') = Some "  No .env files found".
Proof.
  intros W st st'.
  apply (repository_without_files_is_skipped (R := cpython)). reflexivity.
Defined.

(** X11: a rule whose compilation raises an exception other than
    [re.error] (in [cpython], a repetition count that is too large raises
    [OverflowError]) is not caught: the evaluation ends with the
    exception, the matches of the rules before it are lost, and the scan
    of a file that has content ends with it too, without a finding. A
    file whose content is empty is not affected: its rules are never
    compiled. *)
Theorem uncaught_compile_error_ends_the_evaluation :
  forall `{R : Runtime} `{W : World} content l1 bad l2 e,
    Forall (fun p => ~ fatal p) l1 ->
    re_compile bad flags_of_scan = Raise e ->
    issubclass (exn_cls e) re_error = false ->
    (forall st,
       apply_regex_patterns content (l1 ++ bad :: l2) st
       = (Raise e, set_stdout (stdout st ++ concat (map rule_report l1)) st))
    /\ (forall repo_name env_file st st1,
          get_file_content (content_url env_file)
            (logged ("  Checking: " ++ path env_file)%string st)
          = (Ret content, st1) ->
          if truthy content
          then fst (scan_file repo_name (l1 ++ bad :: l2) env_file st)
               = Raise e
               /\ results (self (snd (scan_file repo_name (l1 ++ bad :: l2)
                                        env_file st)))
                  = results (self st)
          else fst (scan_file repo_name (l1 ++ bad :: l2) env_file st)
               = Ret tt).
Proof.
  intros R W content l1 bad l2 e Hl1 Hc Hs.
  assert (Heval : forall st,
    apply_regex_patterns content (l1 ++ bad :: l2) st
    = (Raise e, set_stdout (stdout st ++ concat (map rule_report l1)) st)).
  { intros st. unfold apply_regex_patterns.
    rewrite apply_patterns_from_app, (apply_patterns_from_sound _ _ Hl1).
    simpl. unfold bind. rewrite apply_pattern_run, Hc, Hs. reflexivity. }
  split; [exact Heval|].
  intros repo_name env_file st st1 Hg.
  assert (Hk : ignores_output (fun s => results (self s) = results (self st)))
    by (split; intros; assumption).
  pose proof (get_file_content_keeps _ Hk (content_url env_file)
                (logged ("  Checking: " ++ path env_file)%string st) eq_refl)
    as H1.
  rewrite scan_file_run, Hg in *.
  destruct (truthy content); [|reflexivity].
  rewrite Heval. simpl. split; [reflexivity | exact H1].
Qed.

Lemma uncaught_compile_error_ends_the_evaluation_witness :
  let W := serving [] [".env"] "QT0x" in
  let e := mk_exn OverflowError_ "the repetition number is too large" in
  let st := start [] in
  apply_regex_patterns "A=1" (["a=(.)"] ++ "x{4294967295}" :: ["(1)"]) st
  = (Raise e, set_stdout (stdout st ++ concat (map rule_report ["a=(.)"])) st).
Proof.
  intros W e st.
  apply (uncaught_compile_error_ends_the_evaluation (R := cpython) (W := W)
           "A=1" ["a=(.)"] "x{4294967295}" ["(1)"] e).
  - constructor; [|constructor]. intros (e' & H & _). vm_compute in H.
    discriminate.
  - vm_compute. reflexivity.
  - reflexivity.
Defined.

(** ** The frame of [save_results] *)

Section Frame.
Context `{R : Runtime} `{W : World}.
Variable f : string.
Variable st0 : state.

Lemma write_frame s :
  hoare (only_file_changed f st0) (write f s)
    (fun _ => only_file_changed f st0) never.
Proof.
  intros st (H1 & H2 & H3 & H4 & H5). unfold only_file_changed. simpl.
  repeat split; auto. intros g Hg. rewrite lookup_insert_ne by auto. auto.
Qed.

Lemma write_match_frame pm :
  hoare (only_file_changed f st0) (write_match f pm)
    (fun _ => only_file_changed f st0) never.
Proof.
  unfold write_match.
  eapply hoare_bind; [apply write_frame|]. intros [].
  eapply hoare_bind; [apply write_frame|]. intros []. apply write_frame.
Qed.

Lemma write_result_frame result :
  hoare (only_file_changed f st0) (write_result f result)
    (fun _ => only_file_changed f st0) never.
Proof.
  unfold write_result.
  eapply hoare_bind; [apply write_frame|]. intros [].
  eapply hoare_bind; [apply write_frame|]. intros [].
  eapply hoare_bind; [apply write_frame|]. intros [].
  eapply hoare_bind; [apply write_frame|]. intros [].
  eapply hoare_bind.
  { apply hoare_for_each. intros pm _. apply write_match_frame. }
  intros []. apply write_frame.
Qed.

Lemma save_results_frame :
  open_fails f = None ->
  hoare (fun st => st = st0) (save_results f)
    (fun _ st =>
       self st = self st0 /\ heap st = heap st0 /\ trace st = trace st0
       /\ (forall g, g <> f -> files st !! g = files st0 !! g)
       /\ stdout st
          = stdout st0
            ++ match results (self st0) with
               | [] => []
               | _ :: _ => [(nl ++ "Results saved to " ++ f)%string]
               end)
    never.
Proof.
  intros Ho. unfold save_results.
  eapply hoare_bind with (Q := fun _ => only_file_changed f st0).
  { intros st ->. unfold open_w. rewrite Ho. unfold only_file_changed. simpl.
    repeat split. intros g Hg. now rewrite lookup_insert_ne. }
  intros []. eapply hoare_bind; [apply write_frame|]. intros [].
  eapply hoare_bind with (Q := fun _ => only_file_changed f st0).
  { intros st H. exact H. }
  intros t. eapply hoare_bind; [apply write_frame|]. intros [].
  eapply hoare_bind; [apply write_frame|]. intros [].
  eapply hoare_bind with
    (Q := fun s st => s = self st0 /\ only_file_changed f st0 st).
  { intros st H. unfold get_self. split; [apply H | exact H]. }
  intros s st [-> H].
  destruct (results (self st0)) as [|r rs] eqn:Hr.
  - pose proof (write_frame ("No matches found." ++ nl)%string st H) as H1.
    destruct (write f _ st) as [[[]|e] st1]; [|contradiction].
    destruct H1 as (H1 & H2 & H3 & H4 & H5).
    rewrite app_nil_r. auto.
  - assert (Hloop : hoare (only_file_changed f st0)
                      (for_each (r :: rs) (write_result f))
                      (fun _ => only_file_changed f st0) never).
    { apply hoare_for_each. intros x _. apply write_result_frame. }
    specialize (Hloop st H). unfold bind.
    destruct (for_each (r :: rs) (write_result f) st) as [[[]|e] st1];
      [|contradiction].
    destruct Hloop as (H1 & H2 & H3 & H4 & H5). simpl.
    rewrite H4. auto.
Qed.

End Frame.

Lemma save_results_open_fails `{R : Runtime} `{W : World} f msg st :
  open_fails f = Some msg ->
  save_results f st = (Raise (mk_exn OSError_ msg), st).
Proof.
  intros Ho. unfold save_results, bind, open_w. rewrite Ho. reflexivity.
Qed.

Lemma save_results_opened `{R : Runtime} `{W : World} f st :
  open_fails f = None ->
  let st' := snd (save_results f st) in
  self st' = self st /\ heap st' = heap st /\ trace st' = trace st
  /\ (forall g, g <> f -> files st' !! g = files st !! g)
  /\ stdout st'
     = stdout st
       ++ match results (self st) with
          | [] => []
          | _ :: _ => [(nl ++ "Results saved to " ++ f)%string]
          end.
Proof.
  intros Ho. pose proof (save_results_frame f st Ho st eq_refl) as H.
  destruct (save_results f st) as [[[]|e] st']; [exact H | contradiction].
Qed.

(** X12: [save_results] touches the named file and the standard output
    only. When the file cannot be opened, the [OSError] is raised and
    nothing at all has changed. When it can, the results, the list
    objects, the trace and every other file are as before, and the line
    about the saved results is printed exactly when there is a finding: a
    report without findings is written silently. *)
Theorem save_results_touches_only_the_report :
  forall `{R : Runtime} `{W : World} f st,
    (forall msg, open_fails f = Some msg ->
       save_results f st = (Raise (mk_exn OSError_ msg), st))
    /\ (open_fails f = None ->
        let st' := snd (save_results f st) in
        self st' = self st /\ heap st' = heap st /\ trace st' = trace st
        /\ (forall g, g <> f -> files st' !! g = files st !! g)
        /\ stdout st'
           = stdout st
             ++ match results (self st) with
                | [] => []
                | _ :: _ => [(nl ++ "Results saved to " ++ f)%string]
                end).
Proof.
  intros R W f st. split.
  - intros msg. apply save_results_open_fails.
  - apply save_results_opened.
Qed.

Lemma save_results_touches_only_the_report_witness :
  let W := {| requests_get := fun _ _ => inl (FConnection, "down");
              datetime_now := fun _ => noon;
              open_fails := fun n => if String.eqb n "/report.txt"
                                     then Some "Permission denied" else None |} in
  let st := recorded (finding_of "a/b" {| path := ".env"; content_url := "";
                                          html_url := "u" |}
                        [("x", MStr "1")]) (start []) in
  save_results "/report.txt" st
  = (Raise (mk_exn OSError_ "Permission denied"), st)
  /\ stdout (snd (save_results "out.txt" st))
     = stdout st ++ [(nl ++ "Results saved to " ++ "out.txt")%string].
Proof.
  intros W st.
  destruct (save_results_touches_only_the_report (R := cpython) (W := W)
              "/report.txt" st) as [H1 _].
  destruct (save_results_touches_only_the_report (R := cpython) (W := W)
              "out.txt" st) as [_ H2].
  split; [apply H1; reflexivity|].
  apply (H2 eq_refl).
Defined.

(** ** The script as shipped *)

Lemma list_set_nil `{R : Runtime} : list_set [] = [].
Proof.
  destruct (list_set []) as [|x l] eqn:H; [reflexivity|].
  assert (Hx : x ∈ list_set []) by (rewrite H; apply list_elem_of_here).
  apply (proj1 (list_set_elem [] x)) in Hx. inversion Hx.
Qed.

(** X13: the script, as shipped, scans nothing: its list of
    repositories is empty and it has no search query, so it sends no
    request, prints that it scans 0 repositories, and, when the file can
    be opened, writes to [github_env_matches.txt] the report that says
    that nothing was found. When the file cannot be opened, the script
    ends with the [OSError]. *)
Theorem main_scans_nothing :
  forall `{R : Runtime} `{W : World} st,
    let out := "github_env_matches.txt" in
    let st' := snd (main st) in
    trace st' = trace st
    /\ match open_fails out with
       | Some msg =>
           fst (main st) = Raise (mk_exn OSError_ msg)
           /\ files st' = files st
       | None =>
           fst (main st) = Ret tt
           /\ files st' !! out
              = Some (header_chunks (datetime_now (trace st))
                      ++ [("No matches found." ++ nl)%string])
       end
    /\ stdout st' = stdout st ++ ["Scanning 0 repositories..."].
Proof.
  intros R W st out st'.
  assert (Hmain : exists sd,
            main st = save_results out sd
            /\ self sd = init None /\ trace sd = trace st
            /\ stdout sd = stdout st ++ ["Scanning 0 repositories..."]
            /\ files sd = files st).
  { unfold main, construct. unfold bind at 1. unfold bind at 1.
    unfold new_list.
    set (sa := set_self (fun _ => init None) st).
    set (r := fresh (dom (heap sa))).
    set (sb := set_heap (<[r := []]> (heap sa)) sa).
    assert (Hr : heap sb !! r = Some []) by apply lookup_insert_eq.
    pose proof (resolve_heap r [] None 5 sb Hr) as H. simpl in H.
    destruct H as (r' & sc & Hres & Hl & _ & Hself & Hout & Htr).
    assert (Hfiles : files sc = files st).
    { pose proof (resolve_keeps (fun x => files x = files st)
                    ltac:(split; intros; assumption)
                    ltac:(intros; assumption) r None 5 sb eq_refl) as Hk.
      rewrite Hres in Hk. exact Hk. }
    exists (logged "Scanning 0 repositories..." sc).
    split; [|unfold logged; simpl; rewrite Hself, Htr, Hout; auto].
    unfold bind at 1. unfold scrape. unfold bind at 1. rewrite Hres.
    unfold bind at 1. unfold read_list. rewrite Hl, list_set_nil.
    reflexivity. }
  destruct Hmain as (sd & Hmain & Hd1 & Hd2 & Hd3 & Hd4).
  unfold st'. rewrite Hmain.
  pose proof (fun msg => save_results_open_fails out msg sd) as Hfail.
  pose proof (save_results_opened out sd) as Hok.
  destruct (open_fails out) as [msg|] eqn:Ho.
  - rewrite (Hfail msg eq_refl). simpl. rewrite Hd2, Hd3, Hd4. auto.
  - destruct (Hok eq_refl) as (H1 & H2 & H3 & H4 & H5).
    destruct (save_results_run out sd Ho) as (Hfst & Hfile & _).
    rewrite H3, H5, Hd1, Hd2, Hd3. simpl. rewrite app_nil_r.
    split; [reflexivity|]. split; [|reflexivity].
    split; [exact Hfst|]. rewrite Hfile, Hd1, Hd2. reflexivity.
Qed.

(** What the rules of the script find in two lines of a file. *)
Example shipped_rules_on_two_lines :
  map snd (concat (map (rule_matches (R := cpython)
                          ("DB_URL=postgres://u:p@h/db" ++ nl
                           ++ "password = hunter2")%string)
                     regex_patterns))
  = [MStr "postgres://u:p@h/db"; MStr "hunter2"].
Proof. vm_compute. reflexivity. Qed.

(** ** Decoding what the API encodes *)

Lemma all_ascii_listed (a : ascii) : In a (map ascii_of_nat (seq 0 256)).
Proof.
  rewrite <- (ascii_nat_embedding a). apply in_map, in_seq.
  pose proof (nat_ascii_bounded a). lia.
Qed.

Lemma for_all_ascii (P : ascii -> bool) :
  forallb P (map ascii_of_nat (seq 0 256)) = true -> forall a, P a = true.
Proof. intros H a. eapply forallb_forall in H; [exact H | apply all_ascii_listed]. Qed.

Lemma all_sextets_listed (n : N) :
  (n < 64)%N -> In n (map N.of_nat (seq 0 64)).
Proof.
  intros H. rewrite <- (N2Nat.id n). apply in_map, in_seq. lia.
Qed.

Lemma b64char_decodes n :
  (n < 64)%N ->
  Base64.table_a2b_base64 (b64char n) = Some n
  /\ Ascii.eqb (b64char n) Base64.BASE64_PAD = false
  /\ (code (b64char n) <? 128)%N = true.
Proof.
  intros H.
  assert (Hall : forallb (fun k =>
            match Base64.table_a2b_base64 (b64char k) with
            | Some v => N.eqb v k
            | None => false
            end
            && negb (Ascii.eqb (b64char k) Base64.BASE64_PAD)
            && (code (b64char k) <? 128)%N)
            (map N.of_nat (seq 0 64)) = true) by (vm_compute; reflexivity).
  eapply forallb_forall in Hall; [|apply all_sextets_listed, H].
  apply andb_prop in Hall. destruct Hall as [Hall H3].
  apply andb_prop in Hall. destruct Hall as [H1 H2].
  destruct (Base64.table_a2b_base64 (b64char n)) as [v|]; [|discriminate].
  apply N.eqb_eq in H1. subst v.
  apply negb_true_iff in H2. auto.
Qed.

(** One character of the alphabet, read by the loop of [a2b_base64]. *)
Lemma a2b_loop_data n rest quad_pos leftchar pads out :
  (n < 64)%N ->
  Base64.a2b_loop (b64char n :: rest) quad_pos leftchar pads out =
  match quad_pos with
  | O => Base64.a2b_loop rest 1 n 0 out
  | 1 => Base64.a2b_loop rest 2 (N.land n 15) 0
           (Base64.byte (N.lor (N.shiftl leftchar 2) (N.shiftr n 4)) :: out)
  | 2 => Base64.a2b_loop rest 3 (N.land n 3) 0
           (Base64.byte (N.lor (N.shiftl leftchar 4) (N.shiftr n 2)) :: out)
  | _ => Base64.a2b_loop rest 0 0 0
           (Base64.byte (N.lor (N.shiftl leftchar 6) n) :: out)
  end.
Proof.
  intros H. destruct (b64char_decodes n H) as (H1 & H2 & _).
  simpl. rewrite H2, H1. reflexivity.
Qed.

Lemma for_all_ascii2 (P : ascii -> ascii -> bool) :
  forallb (fun a => forallb (P a) (map ascii_of_nat (seq 0 256)))
    (map ascii_of_nat (seq 0 256)) = true ->
  forall a b, P a b = true.
Proof.
  intros H a b.
  apply (for_all_ascii (fun a => forallb (P a) (map ascii_of_nat (seq 0 256))))
    with (a := a) in H.
  apply (for_all_ascii (P a)). exact H.
Qed.

(** The four sextets of three bytes are in range. *)
Lemma sextets_in_range a b :
  (N.shiftr (code a) 2 <? 64)%N
  && (N.lor (N.shiftl (N.land (code a) 3) 4) (N.shiftr (code b) 4) <? 64)%N
  && (N.lor (N.shiftl (N.land (code a) 15) 2) (N.shiftr (code b) 6) <? 64)%N
  && (N.land (code a) 63 <? 64)%N
  && (N.shiftl (N.land (code a) 3) 4 <? 64)%N
  && (N.shiftl (N.land (code a) 15) 2 <? 64)%N = true.
Proof.
  revert a b. apply for_all_ascii2. vm_compute. reflexivity.
Qed.

(** How the bits of a byte [a] lie in the sextets, whatever the bytes
    [b] around it. *)
Lemma bytes_restored a b :
  Ascii.eqb
    (Base64.byte
       (N.lor (N.shiftl (N.shiftr (code a) 2) 2)
          (N.shiftr (N.lor (N.shiftl (N.land (code a) 3) 4)
                       (N.shiftr (code b) 4)) 4))) a
  && Ascii.eqb
       (Base64.byte
          (N.lor (N.shiftl (N.shiftr (code a) 2) 2)
             (N.shiftr (N.shiftl (N.land (code a) 3) 4) 4))) a
  && N.eqb (N.land (N.lor (N.shiftl (N.land (code b) 3) 4)
                      (N.shiftr (code a) 4)) 15)
       (N.shiftr (code a) 4)
  && N.eqb (N.shiftr (N.lor (N.shiftl (N.land (code a) 15) 2)
                        (N.shiftr (code b) 6)) 2)
       (N.land (code a) 15)
  && N.eqb (N.shiftr (N.shiftl (N.land (code a) 15) 2) 2)
       (N.land (code a) 15)
  && Ascii.eqb
       (Base64.byte
          (N.lor (N.shiftl (N.shiftr (code a) 4) 4) (N.land (code a) 15))) a
  && N.eqb (N.land (N.lor (N.shiftl (N.land (code b) 15) 2)
                      (N.shiftr (code a) 6)) 3)
       (N.shiftr (code a) 6)
  && Ascii.eqb
       (Base64.byte
          (N.lor (N.shiftl (N.shiftr (code a) 6) 6) (N.land (code a) 63))) a
  = true.
Proof.
  revert a b. apply for_all_ascii2. vm_compute. reflexivity.
Qed.

(** The decoder skips every character that is neither of the alphabet
    nor the pad, a line break for instance. *)
Lemma a2b_loop_skips data :
  forall quad_pos leftchar pads out,
    Base64.a2b_loop data quad_pos leftchar pads out =
    Base64.a2b_loop (List.filter significant data) quad_pos leftchar pads out.
Proof.
  induction data as [|c rest IH]; intros quad_pos leftchar pads out;
    [reflexivity|].
  cbn [List.filter]. unfold significant at 1.
  destruct (Ascii.eqb c Base64.BASE64_PAD) eqn:Hpad.
  - cbn [orb Base64.a2b_loop]. rewrite Hpad.
    destruct (2 <=? quad_pos)%nat; [|apply IH].
    destruct (4 <=? quad_pos + S pads)%nat; [reflexivity|apply IH].
  - destruct (Base64.table_a2b_base64 c) as [v|] eqn:Hv.
    + cbn [orb Base64.a2b_loop]. rewrite Hpad, Hv.
      destruct quad_pos as [|[|[|q]]]; apply IH.
    + cbn [orb Base64.a2b_loop]. rewrite Hpad, Hv. apply IH.
Qed.

Lemma sextet_bounds a b :
  (N.shiftr (code a) 2 < 64)%N
  /\ (N.lor (N.shiftl (N.land (code a) 3) 4) (N.shiftr (code b) 4) < 64)%N
  /\ (N.lor (N.shiftl (N.land (code a) 15) 2) (N.shiftr (code b) 6) < 64)%N
  /\ (N.land (code a) 63 < 64)%N
  /\ (N.shiftl (N.land (code a) 3) 4 < 64)%N
  /\ (N.shiftl (N.land (code a) 15) 2 < 64)%N.
Proof.
  pose proof (sextets_in_range a b) as H.
  repeat (apply andb_prop in H; destruct H as [H ?]).
  repeat split; apply N.ltb_lt; assumption.
Qed.

Lemma byte_identities a b :
  Base64.byte
    (N.lor (N.shiftl (N.shiftr (code a) 2) 2)
       (N.shiftr (N.lor (N.shiftl (N.land (code a) 3) 4)
                    (N.shiftr (code b) 4)) 4)) = a
  /\ Base64.byte
       (N.lor (N.shiftl (N.shiftr (code a) 2) 2)
          (N.shiftr (N.shiftl (N.land (code a) 3) 4) 4)) = a
  /\ N.land (N.lor (N.shiftl (N.land (code b) 3) 4)
               (N.shiftr (code a) 4)) 15
     = N.shiftr (code a) 4
  /\ N.shiftr (N.lor (N.shiftl (N.land (code a) 15) 2)
                 (N.shiftr (code b) 6)) 2
     = N.land (code a) 15
  /\ N.shiftr (N.shiftl (N.land (code a) 15) 2) 2 = N.land (code a) 15
  /\ Base64.byte
       (N.lor (N.shiftl (N.shiftr (code a) 4) 4) (N.land (code a) 15)) = a
  /\ N.land (N.lor (N.shiftl (N.land (code b) 15) 2)
               (N.shiftr (code a) 6)) 3
     = N.shiftr (code a) 6
  /\ Base64.byte
       (N.lor (N.shiftl (N.shiftr (code a) 6) 6) (N.land (code a) 63)) = a.
Proof.
  pose proof (bytes_restored a b) as H.
  repeat (apply andb_prop in H; destruct H as [H ?]).
  repeat split;
    first [apply Ascii.eqb_eq; assumption | apply N.eqb_eq; assumption].
Qed.

(** Decoding the encoding of [l] gives [l] back. *)
Lemma a2b_loop_encoded n :
  forall l out,
    (length l <= n)%nat ->
    Base64.a2b_loop (b64encode l) 0 0 0 out = Ret (rev out ++ l).
Proof.
  induction n as [n IH] using lt_wf_ind. intros l out Hn.
  destruct l as [|a [|b [|c t]]].
  - simpl. rewrite app_nil_r. reflexivity.
  - cbn [b64encode].
    destruct (sextet_bounds a a) as (H1 & _ & _ & _ & H5 & _).
    destruct (byte_identities a a) as (_ & B2 & _).
    rewrite (a2b_loop_data _ _ _ _ _ _ H1).
    rewrite (a2b_loop_data _ _ _ _ _ _ H5).
    rewrite B2. reflexivity.
  - cbn [b64encode].
    destruct (sextet_bounds a b) as (H1 & H2 & _).
    destruct (sextet_bounds b a) as (_ & _ & _ & _ & _ & H6).
    destruct (byte_identities a b) as (B1 & _).
    destruct (byte_identities b a) as (_ & _ & E2 & _ & E4 & B5 & _).
    rewrite (a2b_loop_data _ _ _ _ _ _ H1).
    rewrite (a2b_loop_data _ _ _ _ _ _ H2).
    rewrite (a2b_loop_data _ _ _ _ _ _ H6).
    rewrite B1, E2, E4, B5. simpl. rewrite <- !app_assoc. reflexivity.
  - cbn [b64encode].
    destruct (sextet_bounds a b) as (H1 & H2 & _).
    destruct (sextet_bounds b c) as (_ & _ & H3 & _).
    destruct (sextet_bounds c c) as (_ & _ & _ & H4 & _).
    destruct (byte_identities a b) as (B1 & _).
    destruct (byte_identities b a) as (_ & _ & E2 & _).
    destruct (byte_identities b c) as (_ & _ & _ & E3 & _ & B5 & _).
    destruct (byte_identities c b) as (_ & _ & _ & _ & _ & _ & E6 & B7).
    rewrite (a2b_loop_data _ _ _ _ _ _ H1).
    rewrite (a2b_loop_data _ _ _ _ _ _ H2).
    rewrite (a2b_loop_data _ _ _ _ _ _ H3).
    rewrite (a2b_loop_data _ _ _ _ _ _ H4).
    rewrite B1, E2, E3, B5, E6, B7.
    rewrite (IH (length t)); [|simpl in Hn; lia|lia].
    simpl. rewrite <- !app_assoc. reflexivity.
Qed.

Lemma b64decode_encoded s bytes :
  Base64.is_ascii s = true ->
  List.filter significant (chars s) = b64encode bytes ->
  Base64.b64decode s = Ret bytes.
Proof.
  intros Ha He. unfold Base64.b64decode, Base64.a2b_base64. rewrite Ha.
  rewrite a2b_loop_skips, He.
  apply (a2b_loop_encoded (length bytes)). lia.
Qed.

Section Content.
Context `{R : Runtime} `{W : World}.

(** X15. [get_file_content] undoes the encoding of the API: when the
    response has a status outside 400..599 and its [content] is the
    standard base64 encoding of the bytes of a file, possibly broken by
    line breaks or other characters outside the alphabet, the call
    returns the text of these bytes if they are well-formed UTF-8, and
    raises [UnicodeDecodeError] if they are not; it prints nothing. *)
Theorem encoded_file_is_returned file_url st resp kv s bytes :
  requests_get (trace st) (fetch_request st file_url) = inr resp ->
  (status_code resp < 400 \/ 600 <= status_code resp)%Z ->
  body resp = inr (JObj kv) ->
  Json.assoc "content" kv = Some (JStr s) ->
  Base64.is_ascii s = true ->
  List.filter significant (chars s) = b64encode bytes ->
  (Utf8.valid bytes = true ->
   get_file_content file_url st
   = (Ret (text bytes), sent (fetch_request st file_url) st))
  /\ (Utf8.valid bytes = false ->
      exists e,
        get_file_content file_url st
        = (Raise e, sent (fetch_request st file_url) st)
        /\ exn_cls e = UnicodeDecodeError_).
Proof.
  intros Hget Hstatus Hbody Hkv Ha He.
  assert (Hd : decode_content resp = Utf8.decode bytes).
  { unfold decode_content, raise_for_status, response_json.
    replace ((400 <=? status_code resp) && (status_code resp <? 500))%Z
      with false by (symmetry; apply andb_false_iff; lia).
    replace ((500 <=? status_code resp) && (status_code resp <? 600))%Z
      with false by (symmetry; apply andb_false_iff; lia).
    rewrite Hbody. cbn [rbind Json.getitem]. rewrite Hkv.
    cbn [rbind b64decode]. rewrite (b64decode_encoded s bytes Ha He).
    reflexivity. }
  rewrite get_file_content_run. cbv zeta. rewrite Hget, Hd.
  unfold Utf8.decode. split; intros Hv; rewrite Hv.
  - reflexivity.
  - eexists. split; reflexivity.
Qed.

End Content.

Lemma encoded_file_is_returned_witness :
  let W := Example_.serving [] [".env"]
             ("QVBJX0tF" ++ nl ++ "WT0iYWJjMTIzIg==" ++ nl) in
  let st := Example_.start ["a/b"] in
  let file_url := "https://api.github.com/contents/.env" in
  get_file_content file_url st
  = (Ret Example_.api_key_line, sent (fetch_request st file_url) st).
Proof.
  intros W st file_url.
  apply (proj1 (encoded_file_is_returned (W := W) file_url st
           {| status_code := 200; reason := "OK"; resp_url := "";
              body := inr (JObj [("content",
                                  JStr ("QVBJX0tF" ++ nl
                                        ++ "WT0iYWJjMTIzIg==" ++ nl));
                                 ("encoding", JStr "base64")]) |}
           [("content", JStr ("QVBJX0tF" ++ nl ++ "WT0iYWJjMTIzIg==" ++ nl));
            ("encoding", JStr "base64")]
           ("QVBJX0tF" ++ nl ++ "WT0iYWJjMTIzIg==" ++ nl)
           (chars Example_.api_key_line)
           ltac:(reflexivity) ltac:(simpl; lia) ltac:(reflexivity)
           ltac:(reflexivity) ltac:(vm_compute; reflexivity)
           ltac:(vm_compute; reflexivity)));
    vm_compute; reflexivity.
Defined.

(** ** The contract of [findall], and what the pipeline does with it *)

(** The model of [re] keeps the contract. *)
Lemma cpython_findall_contract :
  findall_contract (R := cpython) Re.groups Re.finditer.
Proof.
  intros regex content. split; [reflexivity | apply finditer_in_text_order].
Qed.

Section Contract.
Context `{R : Runtime}.
Variable groups : re_pattern -> nat.
Variable finditer : re_pattern -> string -> list Re.match_obj.
Hypothesis Hcontract : findall_contract groups finditer.

(** The matches of one rule: one for each match of the scan, in the
    order of the scan, labelled with the rule. *)
Lemma contract_rule_matches content p regex :
  re_compile p flags_of_scan = Ret regex ->
  rule_matches content p
  = map (fun x => (p, findall_item (groups regex) content x))
        (finditer regex content).
Proof.
  intros Hc. unfold rule_matches. rewrite Hc.
  rewrite (proj1 (Hcontract regex content)). now rewrite map_map.
Qed.

Lemma one_group_matches content p regex :
  re_compile p flags_of_scan = Ret regex ->
  groups regex = 1%nat ->
  rule_matches content p
  = map (fun x => (p, MStr (Re.group_text content x 1)))
        (finditer regex content).
Proof.
  intros Hc Hg. rewrite (contract_rule_matches _ _ _ Hc), Hg. reflexivity.
Qed.

Lemma one_group_evaluates content p :
  one_group groups p ->
  ~ fatal p
  /\ rule_report p = []
  /\ Forall (fun pm => exists s, snd pm = MStr s) (rule_matches content p).
Proof.
  intros (regex & Hc & Hg). split; [|split].
  - intros (e & He & _). congruence.
  - unfold rule_report. now rewrite Hc.
  - rewrite (one_group_matches content p regex Hc Hg).
    apply Forall_forall. intros pm Hpm.
    apply list_elem_of_In, in_map_iff in Hpm. destruct Hpm as (x & <- & _).
    simpl. eauto.
Qed.

Lemma one_group_rules_evaluate content patterns :
  Forall (one_group groups) patterns ->
  Forall (fun p => ~ fatal p) patterns
  /\ concat (map rule_report patterns) = []
  /\ Forall (fun pm => exists s, snd pm = MStr s)
       (concat (map (rule_matches content) patterns)).
Proof.
  induction 1 as [|p t Hp Ht IH]; [repeat split; constructor|].
  destruct IH as (IH1 & IH2 & IH3).
  destruct (one_group_evaluates content p Hp) as (H1 & H2 & H3).
  split; [constructor; assumption|]. simpl. rewrite H2, IH2.
  split; [reflexivity|]. apply Forall_app. auto.
Qed.

End Contract.

(** An evaluation that no rule ends returns the matches of the rules and
    prints the reports of the malformed ones. *)
Lemma apply_regex_patterns_sound `{R : Runtime} content patterns st :
  Forall (fun p => ~ fatal p) patterns ->
  apply_regex_patterns content patterns st
  = (Ret (concat (map (rule_matches content) patterns)),
     set_stdout (stdout st ++ concat (map rule_report patterns)) st).
Proof.
  intros H. unfold apply_regex_patterns.
  now rewrite (apply_patterns_from_sound content patterns H).
Qed.

Lemma nothing_printed st : set_stdout (stdout st ++ []) st = st.
Proof. destruct st. simpl. now rewrite app_nil_r. Qed.

Section Carried.
Context `{R : Runtime} `{W : World}.




End Carried.



(** The same file in a whole run: the report names the matches of the
    first rule, in the order of the text, and then that of the second,
    though the text has them in another order. *)
Example order_reaches_the_report :
  let W := serving [] [".env"] "Qj0yCkE9MQpCPTM=" in
  let st := snd (scrape 0%nat ["b=(.)"; "a=(.)"] None 5 (start ["a/b"])) in
  default [] (files (snd (save_results "out.txt" st)) !! "out.txt")
  = header_chunks noon
    ++ [("Repository: a/b" ++ nl)%string;
        ("File: .env" ++ nl)%string;
        ("URL: https://github.com/a/b/blob/main/.env" ++ nl)%string;
        (repeat_char "-" 40 ++ nl)%string;
        ("Pattern: b=(.)" ++ nl)%string; ("Match: 2" ++ nl)%string; nl;
        ("Pattern: b=(.)" ++ nl)%string; ("Match: 3" ++ nl)%string; nl;
        ("Pattern: a=(.)" ++ nl)%string; ("Match: 1" ++ nl)%string; nl;
        (repeat_char "=" 80 ++ nl ++ nl)%string].
Proof. vm_compute. reflexivity. Qed.



(** The delay is half a second. The events of a file are the fetch and
    then, exactly when the processing of the file returns, the sleep of
    [delay]; the processing returns whenever the fetch returns a
    content, empty or not, and the evaluation returns matches, some or
    none. And in the events of a whole run, however it ends, two content
    fetches are never without a sleep of [delay] between them: on a clock
    that only the sleeps advance, the fetch times are [delay] apart, so
    the last of [N] fetches is at least [(N - 1) * delay] after the
    first. *)
Lemma content_fetches_keep_the_pace :
  forall `{R : Runtime} `{W : World},
    (delay == 1 # 2)%Q
    /\ (forall repo_name patterns env_file st,
          trace (snd (scan_file repo_name patterns env_file st))
          = trace st
            ++ EGet (fetch_request st (content_url env_file))
               :: match fst (scan_file repo_name patterns env_file st) with
                  | Ret _ => [ESleep delay]
                  | Raise _ => []
                  end)
    /\ (forall repo_name patterns env_file st content st1 ms,
          get_file_content (content_url env_file)
            (logged ("  Checking: " ++ path env_file)%string st)
          = (Ret content, st1) ->
          fst (apply_regex_patterns content patterns st1) = Ret ms ->
          fst (scan_file repo_name patterns env_file st) = Ret tt)
    /\ (forall repos patterns search_query max_repos st,
          exists ev,
            trace (snd (scrape repos patterns search_query max_repos st))
            = trace st ++ ev
            /\ forall clock,
                 separated (fetch_times clock ev)
                 /\ forall first rest x,
                      fetch_times clock ev = first :: rest ->
                      last (first :: rest) = Some x ->
                      (first + inject_Z (Z.of_nat (length rest)) * delay
                       <= x)%Q).
Proof.
  intros R W. split; [reflexivity | split; [|split]].
  - intros. apply scan_file_trace.
  - intros repo_name patterns env_file st content st1 ms Hg Ha.
    apply (scan_file_returns _ _ _ _ _ _ _ Hg Ha).
  - intros repos patterns search_query max_repos st.
    destruct (scrape_paced repos patterns search_query max_repos st)
      as (ev & b & Ht & Hp).
    exists ev. split; [exact Ht|]. intros clock.
    pose proof (paced_times_separated ev b clock Hp) as Hs.
    split; [exact Hs|]. intros first rest x Hf Hl.
    rewrite Hf in Hs. now apply separated_span.
Qed.

(** C8, evaluated where the code departs from it: the sleep is the last
    statement of the loop body, so a file whose processing an exception
    ends is not followed by the delay. In every runtime and world, the
    events of such a file are the fetch alone. A file whose bytes are not
    UTF-8 (the base64 text [6Q==]) is fetched and no sleep follows: the
    run ends there with one fetch and no sleep in its trace. The same
    holds for a file with content when a rule raises [OverflowError] at
    its compilation. *)
Theorem no_delay_after_a_file_that_raises :
  (forall `{R : Runtime} `{W : World} repo_name patterns env_file st e,
     fst (scan_file repo_name patterns env_file st) = Raise e ->
     trace (snd (scan_file repo_name patterns env_file st))
     = trace st ++ [EGet (fetch_request st (content_url env_file))])
  /\ (let W := serving [] [".env"; "config/.env"] "6Q==" in
      let f := {| path := ".env";
                  content_url := "https://api.github.com/contents/.env";
                  html_url := "https://github.com/a/b/blob/main/.env" |} in
      let st := start ["a/b"] in
      let run := scrape 0%nat ["(x)"] None 5 st in
      fst (scan_file "a/b" ["(x)"] f st)
      = Raise (mk_exn UnicodeDecodeError_
                 "'utf-8' codec can't decode bytes: invalid data")
      /\ trace (snd (scan_file "a/b" ["(x)"] f st))
         = [EGet (fetch_request st (content_url f))]
      /\ fst run
         = Raise (mk_exn UnicodeDecodeError_
                    "'utf-8' codec can't decode bytes: invalid data")
      /\ count_fetches (trace (snd run)) = 1%nat
      /\ count_sleeps (trace (snd run)) = 0%nat)
  /\ (let W := serving [] [".env"] "QT0x" in
      let f := {| path := ".env";
                  content_url := "https://api.github.com/contents/.env";
                  html_url := "https://github.com/a/b/blob/main/.env" |} in
      let st := start ["a/b"] in
      fst (get_file_content (content_url f) st) = Ret "A=1"
      /\ fst (scan_file "a/b" ["x{4294967295}"] f st)
         = Raise (mk_exn OverflowError_ "the repetition number is too large")
      /\ trace (snd (scan_file "a/b" ["x{4294967295}"] f st))
         = [EGet (fetch_request st (content_url f))]).
Proof.
  split; [|split].
  - intros R W repo_name patterns env_file st e H.
    rewrite scan_file_trace, H. reflexivity.
  - vm_compute. repeat split.
  - vm_compute. repeat split.
Qed.

(** X14: each of the ten rules of the script compiles, in [cpython], to
    a pattern with exactly one capturing group. And in every runtime
    that keeps the contract of [findall], the evaluation of rules that
    each compile to a pattern with one group prints nothing, raises
    nothing, changes nothing, and every value it reports is a single
    string. *)
Theorem shipped_rules_have_one_group :
  Forall one_group_rule regex_patterns
  /\ forall `{R : Runtime} groups finditer,
       findall_contract groups finditer ->
       forall patterns content st,
         Forall (one_group groups) patterns ->
         exists ms,
           apply_regex_patterns content patterns st = (Ret ms, st)
           /\ ms = concat (map (rule_matches content) patterns)
           /\ Forall (fun pm => exists s, snd pm = MStr s) ms.
Proof.
  split.
  - repeat (constructor;
            [eexists; split; [vm_compute; reflexivity | reflexivity]|]).
    constructor.
  - intros R groups finditer Hc patterns content st Hp.
    destruct (one_group_rules_evaluate groups finditer Hc content patterns Hp)
      as (H1 & H2 & H3).
    eexists. split; [|split; [reflexivity | exact H3]].
    rewrite (apply_regex_patterns_sound content patterns st H1), H2.
    now rewrite nothing_printed.
Qed.

Lemma shipped_rules_have_one_group_witness :
  exists ms,
    apply_regex_patterns (R := cpython)
      ("DB_URL=postgres://u:p@h/db" ++ nl ++ "password = hunter2")%string
      regex_patterns (start [])
    = (Ret ms, start [])
    /\ ms = concat (map (rule_matches (R := cpython)
                           ("DB_URL=postgres://u:p@h/db" ++ nl
                            ++ "password = hunter2")%string)
                      regex_patterns)
    /\ Forall (fun pm => exists s, snd pm = MStr s) ms.
Proof.
  apply (proj2 shipped_rules_have_one_group cpython Re.groups Re.finditer
           cpython_findall_contract regex_patterns).
  apply (proj1 shipped_rules_have_one_group).
Defined.
